(** * pokeproject: the menu / game session controller of [app.js]

    A shallow embedding of the [DOMContentLoaded] closure of [src/app.js]:
    the search button handler, the game-card activation ([openEmulator]),
    the exit and fullscreen controls created for a session, and the
    restoration of the menu ([restoreMenuUIState]).

    Modelling conventions.
    - JavaScript strings are [string]s (their UTF-8 bytes).  What the
      browser computes and the source does not define is a parameter of the
      development, the [host]: [String.prototype.trim] and [toLowerCase],
      the trip of markup through [innerHTML], and the effect of a write
      through [element.style] on the [style] attribute.  The rendered text
      [innerText] is an input of the event that reads it.
    - The document is split in three regions in document order: the nodes
      before [#launch], the children of [#launch], and the nodes after it
      (scripts appended to [document.body] land at the end of the last one).
      The elements the closure captures by reference ([#title-logo],
      [.controls], [#search]) are fields of the state.
    - The string read by [innerHTML] is represented by the node list it
      serialises, listeners erased; assigning it back installs the nodes
      the host's parser makes of it ([reparse]), which carry no listener
      and need not be the nodes that were serialised.
    - Events bubble: the listeners of the target run first, then those of
      its ancestors inside the region, innermost first.  The element
      [#launch] itself and the ancestors of the three regions receive no
      listener from this code unless they are game cards; the model takes
      them not to be.
    - A handler is a state transformer that also returns the events it
      emitted (console output, prompts, writes to the loader's globals) and
      either returns or throws. *)

From Stdlib Require Import String Ascii List Bool Arith Lia.
Import ListNotations.
Open Scope string_scope.
Open Scope list_scope.

(* ================================================================== *)
(** ** JavaScript string primitives used by the controller *)

Module JsString.

Definition is_upper (c : ascii) : bool :=
  (65 <=? nat_of_ascii c)%nat && (nat_of_ascii c <=? 90)%nat.

Definition lower_char (c : ascii) : ascii :=
  if is_upper c then ascii_of_nat (nat_of_ascii c + 32) else c.

(** [String.prototype.toLowerCase] on text of the ASCII range: the
    instance used to run the handlers on sample pages. *)
Fixpoint ascii_toLowerCase (s : string) : string :=
  match s with
  | EmptyString => EmptyString
  | String c r => String (lower_char c) (ascii_toLowerCase r)
  end.

(** White space and line terminators of the ASCII range. *)
Definition is_space (c : ascii) : bool :=
  match nat_of_ascii c with
  | 9 | 10 | 11 | 12 | 13 | 32 => true
  | _ => false
  end.

Fixpoint trimStart (s : string) : string :=
  match s with
  | EmptyString => EmptyString
  | String c r => if is_space c then trimStart r else s
  end.

Fixpoint trimEnd (s : string) : string :=
  match s with
  | EmptyString => EmptyString
  | String c r =>
      match trimEnd r with
      | EmptyString => if is_space c then EmptyString else String c EmptyString
      | r' => String c r'
      end
  end.

(** [String.prototype.trim] on text of the ASCII range. *)
Definition ascii_trim (s : string) : string := trimEnd (trimStart s).

(** [t] is a prefix of [s] ([s.startsWith(t)]). *)
Fixpoint startsWith (s t : string) : bool :=
  match t, s with
  | EmptyString, _ => true
  | String _ _, EmptyString => false
  | String b t', String a s' => Ascii.eqb a b && startsWith s' t'
  end.

(** [String.prototype.includes]: [t] occurs in [s]. *)
Fixpoint includes (s t : string) : bool :=
  startsWith s t ||
  match s with
  | EmptyString => false
  | String _ s' => includes s' t
  end.

(** Truthiness of a string: only the empty string is falsy. *)
Definition truthy (s : string) : bool :=
  match s with EmptyString => false | String _ _ => true end.

(** [a || d] on a possibly missing string ([undefined] / [null]). *)
Definition or_default (a : option string) (d : string) : string :=
  match a with
  | Some s => if truthy s then s else d
  | None => d
  end.

(** ASCII whitespace of the HTML standard (tab, LF, FF, CR, space), which
    separates the tokens of a [class] attribute; U+000B is not part of it. *)
Definition is_class_space (c : ascii) : bool :=
  match nat_of_ascii c with
  | 9 | 10 | 12 | 13 | 32 => true
  | _ => false
  end.

(** The tokens of a [class] attribute. *)
Fixpoint tokens_from (cur s : string) : list string :=
  match s with
  | EmptyString => if truthy cur then [cur] else []
  | String c r =>
      if is_class_space c
      then (if truthy cur then cur :: tokens_from EmptyString r
            else tokens_from EmptyString r)
      else tokens_from (cur ++ String c EmptyString)%string r
  end.

Definition tokens (s : string) : list string := tokens_from EmptyString s.

(** Occurrence as a proposition: [t] sits between some [a] and [b]. *)
Definition occurs_in (t s : string) : Prop :=
  exists a b, s = (a ++ t ++ b)%string.


End JsString.
Import JsString.

(* ================================================================== *)
(** ** The document *)

(** The closures the controller registers as listeners, one constructor
    per [addEventListener] / [onerror] site of [app.js].  A listener bound
    to a game card captures that card; the card is only ever read through
    [dataset.rom] and [dataset.title], so the closure records those. *)
Inductive handler : Type :=
| HCardClick (rom title : option string)  (* () => openEmulator(card) *)
| HCardKey (rom title : option string)    (* Space / Enter on a card *)
| HRebindClick                            (* openEmulator itself, as listener *)
| HRebindKey                              (* Space / Enter => openEmulator() *)
| HBack                                   (* the exit control *)
| HFull                                   (* the fullscreen control *)
| HLoadError (sid : nat).                 (* script.onerror of session sid *)

Definition listener : Type := string * handler.
Definition attrs : Type := list (string * string).
Definition style : Type := list (string * string).

#[warnings="-register-all"]
Inductive node : Type :=
| Elem (tag : string) (a : attrs) (css : style) (ls : list listener)
       (kids : list node)
| Text (s : string).

Section NodeInduction.
Variable P : node -> Prop.
Hypothesis HText : forall s, P (Text s).
Hypothesis HElem : forall t a css ls kids,
    Forall P kids -> P (Elem t a css ls kids).

Fixpoint node_forall_ind (n : node) : P n :=
  match n with
  | Text s => HText s
  | Elem t a css ls kids =>
      HElem t a css ls kids
        ((fix go (l : list node) : Forall P l :=
            match l with
            | [] => Forall_nil P
            | x :: r => Forall_cons x (node_forall_ind x) (go r)
            end) kids)
  end.
End NodeInduction.

Module Dom.

Fixpoint get_attr (k : string) (a : attrs) {struct a} : option string :=
  match a with
  | [] => None
  | (k', v) :: r => if String.eqb k' k then Some v else get_attr k r
  end.

Definition node_attr (k : string) (n : node) : option string :=
  match n with
  | Elem _ a _ _ _ => get_attr k a
  | Text _ => None
  end.

Definition node_tag (n : node) : option string :=
  match n with
  | Elem t _ _ _ _ => Some t
  | Text _ => None
  end.

Definition node_listeners (n : node) : list listener :=
  match n with
  | Elem _ _ _ ls _ => ls
  | Text _ => []
  end.

Definition node_kids (n : node) : list node :=
  match n with
  | Elem _ _ _ _ kids => kids
  | Text _ => []
  end.

(** The selector [#i]. *)
Definition has_id (i : string) (n : node) : bool :=
  match node_attr "id" n with
  | Some v => String.eqb v i
  | None => false
  end.

Definition has_class (c : string) (n : node) : bool :=
  match node_attr "class" n with
  | Some v => existsb (String.eqb c) (tokens v)
  | None => false
  end.

(** The selector [.game-card.game-card--rom]. *)
Definition is_rom_card (n : node) : bool :=
  has_class "game-card" n && has_class "game-card--rom" n.

(** The first result of [f] along a list. *)
Definition first_some {A B : Type} (f : A -> option B)
  : list A -> option B :=
  fix go (l : list A) : option B :=
    match l with
    | [] => None
    | x :: r => match f x with Some y => Some y | None => go r end
    end.

(** First node satisfying [p], in document (pre-)order. *)
Fixpoint find_node (p : node -> bool) (n : node) : option node :=
  if p n then Some n
  else match n with
       | Elem _ _ _ _ kids => first_some (find_node p) kids
       | Text _ => None
       end.

Definition querySelector (p : node -> bool) (doc : list node)
  : option node := first_some (find_node p) doc.

Definition getElementById (i : string) (doc : list node) : option node :=
  querySelector (has_id i) doc.

(** Rewrite the first element of a list on which [f] succeeds. *)
Definition first_update {A : Type} (f : A -> option A)
  : list A -> option (list A) :=
  fix go (l : list A) : option (list A) :=
    match l with
    | [] => None
    | x :: r =>
        match f x with
        | Some x' => Some (x' :: r)
        | None => option_map (cons x) (go r)
        end
    end.

(** Apply [f] to the first node satisfying [p]; [None] if there is none. *)
Fixpoint update_node (p : node -> bool) (f : node -> node) (n : node)
  : option node :=
  if p n then Some (f n)
  else match n with
       | Elem t a css ls kids =>
           option_map (Elem t a css ls) (first_update (update_node p f) kids)
       | Text _ => None
       end.

Definition update_first (p : node -> bool) (f : node -> node)
  : list node -> option (list node) := first_update (update_node p f).

Definition add_listeners (new : list listener) (n : node) : node :=
  match n with
  | Elem t a css ls kids => Elem t a css (ls ++ new) kids
  | Text s => Text s
  end.

(** Erase the listeners: what the markup of a node can carry. *)
Fixpoint strip (n : node) : node :=
  match n with
  | Elem t a css _ kids => Elem t a css [] (map strip kids)
  | Text s => Text s
  end.

(** [element.innerHTML], read. *)
Definition innerHTML (kids : list node) : list node := map strip kids.

(** Drop the elements satisfying [p] and apply [f] to those kept. *)
Definition drop_map {A : Type} (p : A -> bool) (f : A -> A)
  : list A -> list A :=
  fix go (l : list A) : list A :=
    match l with
    | [] => []
    | x :: r => if p x then go r else f x :: go r
    end.

(** Remove every node satisfying [p], at any depth. *)
Fixpoint prune (p : node -> bool) (n : node) : node :=
  match n with
  | Elem t a css ls kids => Elem t a css ls (drop_map p (prune p) kids)
  | Text s => Text s
  end.

Definition remove_all (p : node -> bool) (doc : list node) : list node :=
  drop_map p (prune p) doc.


(** The node reached by a path of child indices. *)
Fixpoint node_at (path : list nat) (l : list node) : option node :=
  match path with
  | [] => None
  | i :: rest =>
      match nth_error l i with
      | Some n =>
          match rest with
          | [] => Some n
          | _ :: _ => node_at rest (node_kids n)
          end
      | None => None
      end
  end.

(** The nodes from the root of a region down to the node at [path]: the
    propagation path of an event whose target is that node.  Empty when
    the path leads nowhere. *)
Fixpoint nodes_along (path : list nat) (l : list node) : list node :=
  match path with
  | [] => []
  | i :: rest =>
      match nth_error l i with
      | Some n =>
          match rest with
          | [] => [n]
          | _ :: _ =>
              match nodes_along rest (node_kids n) with
              | [] => []
              | c => n :: c
              end
          end
      | None => []
      end
  end.

(** [style.k = v] on a declaration block; the empty value removes [k]. *)
Fixpoint set_prop (k v : string) (s : style) {struct s} : style :=
  match s with
  | [] => [(k, v)]
  | (k', v') :: r =>
      if String.eqb k' k then (k, v) :: r else (k', v') :: set_prop k v r
  end.

Definition remove_prop (k : string) (s : style) : style :=
  filter (fun kv => negb (String.eqb (fst kv) k)) s.

Definition style_set (k v : string) (s : style) : style :=
  if truthy v then set_prop k v s else remove_prop k s.

End Dom.
Import Dom.

(* ================================================================== *)
(** ** The host

    The browser functions the controller calls and the source does not
    define.  They are arbitrary functions, with one law assumed of the
    parser: markup serialised from nodes among which none has the id [i]
    is parsed into nodes among which none has it.  (It is what keeps a
    restored menu from containing a [#game] the loaded menu did not
    have.) *)

Class host : Type := mkHost {
  (** [String.prototype.toLowerCase] *)
  toLowerCase : string -> string;
  (** [String.prototype.trim] *)
  trim : string -> string;
  (** the nodes made by assigning to [innerHTML] the string read from the
      [innerHTML] of an element whose children are the given nodes *)
  reparse : list node -> list node;
  (** [element.style[k] = v], on the text of the [style] attribute
      ([None]: the attribute is absent) *)
  style_write : string -> string -> option string -> option string;
  reparse_ids : forall (i : string) (l : list node),
    getElementById i l = None -> getElementById i (reparse l) = None
}.

(* ================================================================== *)
(** ** Program state *)

(** [window.EJS_emulator], owned by the external engine: absent, an object
    without a callable [exit], or an object whose [exit] returns or throws. *)
Inductive emulator : Type :=
| EmuUndefined
| EmuNoExit
| EmuExit (throws : bool).

(** The globals read by [data/loader.js]; [None] is [undefined]. *)
Record globals : Type := mkGlobals {
  EJS_player : option string;
  EJS_gameUrl : option string;
  EJS_gameName : option string;
  EJS_core : option string;
  EJS_pathtodata : option string;
  EJS_startOnLoaded : option bool;
  EJS_disableDatabases : option bool;
  EJS_disableLocalStorage : option bool;
  EJS_emulator : emulator
}.

(** The inline style of [#title-logo]: the text of its [style] attribute,
    [None] when the attribute is absent.  A write through [element.style]
    rewrites that text ([style_write]). *)
Record inline_style : Type := mkInline {
  attr_text : option string
}.

(** The objects [openEmulator] creates for one session, as far as they
    change after creation: the listeners of the two controls and the nodes
    appended to the mount element behind the menu bar. *)
Record session : Type := mkSession {
  s_id : nat;
  s_back : list listener;
  s_full : list listener;
  s_appended : list node
}.

(** The children of [#launch]: menu markup, or one session container. *)
Inductive launch_content : Type :=
| LaunchMenu (kids : list node)
| LaunchGame (s : session).

Record state : Type := mkState {
  body_classes : list string;
  before : list node;
  launch : launch_content;
  after : list node;
  next_sid : nat;
  titleLogo : option inline_style;
  controlsSection : option style;
  placeholder : string;
  timers : list string;
  window : globals;
  fullscreenElement : bool
}.

(** What the closure of the [DOMContentLoaded] listener captures.  The
    string [originalLaunchHTML] is represented by the nodes it serialises,
    without their listeners. *)
Record closure : Type := mkClosure {
  originalLaunchHTML : list node;
  originalLogoStyle : string;
  gameBtn : option node
}.

Definition set_before (v : list node) (st : state) : state :=
  mkState (body_classes st) v (launch st) (after st) (next_sid st)
    (titleLogo st) (controlsSection st) (placeholder st) (timers st)
    (window st) (fullscreenElement st).

Definition set_launch (v : launch_content) (st : state) : state :=
  mkState (body_classes st) (before st) v (after st) (next_sid st)
    (titleLogo st) (controlsSection st) (placeholder st) (timers st)
    (window st) (fullscreenElement st).

Definition set_after (v : list node) (st : state) : state :=
  mkState (body_classes st) (before st) (launch st) v (next_sid st)
    (titleLogo st) (controlsSection st) (placeholder st) (timers st)
    (window st) (fullscreenElement st).

Definition set_next_sid (v : nat) (st : state) : state :=
  mkState (body_classes st) (before st) (launch st) (after st) v
    (titleLogo st) (controlsSection st) (placeholder st) (timers st)
    (window st) (fullscreenElement st).

Definition set_titleLogo (v : option inline_style) (st : state) : state :=
  mkState (body_classes st) (before st) (launch st) (after st) (next_sid st)
    v (controlsSection st) (placeholder st) (timers st)
    (window st) (fullscreenElement st).

Definition set_controlsSection (v : option style) (st : state) : state :=
  mkState (body_classes st) (before st) (launch st) (after st) (next_sid st)
    (titleLogo st) v (placeholder st) (timers st)
    (window st) (fullscreenElement st).

Definition set_placeholder (v : string) (st : state) : state :=
  mkState (body_classes st) (before st) (launch st) (after st) (next_sid st)
    (titleLogo st) (controlsSection st) v (timers st)
    (window st) (fullscreenElement st).

Definition set_timers (v : list string) (st : state) : state :=
  mkState (body_classes st) (before st) (launch st) (after st) (next_sid st)
    (titleLogo st) (controlsSection st) (placeholder st) v
    (window st) (fullscreenElement st).

Definition set_window (v : globals) (st : state) : state :=
  mkState (body_classes st) (before st) (launch st) (after st) (next_sid st)
    (titleLogo st) (controlsSection st) (placeholder st) (timers st)
    v (fullscreenElement st).

Definition set_fullscreenElement (v : bool) (st : state) : state :=
  mkState (body_classes st) (before st) (launch st) (after st) (next_sid st)
    (titleLogo st) (controlsSection st) (placeholder st) (timers st)
    (window st) v.

(* ------------------------------------------------------------------ *)
(** *** The session container built by [openEmulator] (lines 107-160) *)

Definition backBtn (s : session) : node :=
  Elem "button" [("id", "game-back-btn"); ("class", "btn")]
    [("min-width", "150px"); ("background", "#c0392b"); ("color", "#fff")]
    (s_back s) [Text "VOLVER (SALIR)"].

Definition fullBtn (s : session) : node :=
  Elem "button" [("id", "game-full-btn"); ("class", "btn")]
    [("background", "rgba(255,255,255,0.06)"); ("color", "white")]
    (s_full s) [Text "PANTALLA COMPLETA"].

Definition menuBar (s : session) : node :=
  Elem "div" [("id", "game-menu-bar")]
    [("position", "absolute"); ("top", "8px"); ("right", "12px");
     ("z-index", "9999"); ("display", "flex"); ("gap", "8px");
     ("align-items", "center"); ("pointer-events", "auto")]
    [] [backBtn s; fullBtn s].

Definition gameDiv (s : session) : node :=
  Elem "div" [("id", "game")]
    [("width", "100%"); ("height", "100%"); ("position", "relative")]
    [] (menuBar s :: s_appended s).

Definition gameContainerWrapper (s : session) : node :=
  Elem "div" [("id", "game-wrapper")]
    [("width", "100%"); ("height", "520px"); ("margin-top", "12px");
     ("border-radius", "12px"); ("overflow", "hidden");
     ("background", "#000"); ("position", "relative")]
    [] [gameDiv s].

Definition launch_kids (lc : launch_content) : list node :=
  match lc with
  | LaunchMenu kids => kids
  | LaunchGame s => [gameContainerWrapper s]
  end.

(** The whole document, in document order. *)
Definition document (st : state) : list node :=
  before st ++ launch_kids (launch st) ++ after st.

(** The session state is not stored: it is whether a mount point exists. *)
Inductive SessionState : Type := Menu | InGame.

Definition sessionState (st : state) : SessionState :=
  match getElementById "game" (document st) with
  | Some _ => InGame
  | None => Menu
  end.

(* ================================================================== *)
(** ** Effects: state, emitted events, exceptions *)

Inductive jsprim : Type := PStr (s : string) | PBool (b : bool).

Inductive event : Type :=
| EvFocusGameBtn                          (* gameBtn.focus(), on the element
                                             captured when the page loaded *)
| EvSetTimeout (ms : nat)                 (* setTimeout(_, ms) *)
| EvSetGlobal (name : string) (v : jsprim)(* window[name] = v *)
| EvAppendScript (src : string)           (* document.body.appendChild(script) *)
| EvConfirm (text : string)               (* confirm(text) *)
| EvEngineExit                            (* window.EJS_emulator.exit() *)
| EvConsoleWarn (msg : string)
| EvConsoleError (msg : string)
| EvRequestFullscreen
| EvExitFullscreen.

Inductive exn : Type := TypeError (msg : string).

Inductive completion (A : Type) : Type :=
| Normal (a : A)
| Abrupt (e : exn).
Arguments Normal {A} a.
Arguments Abrupt {A} e.

Record outcome (A : Type) : Type := mkOut {
  out_state : state;
  out_events : list event;
  out_result : completion A
}.
Arguments mkOut {A} _ _ _.
Arguments out_state {A} _.
Arguments out_events {A} _.
Arguments out_result {A} _.

Definition M (A : Type) : Type := state -> outcome A.

Definition ret {A : Type} (a : A) : M A := fun st => mkOut st [] (Normal a).

Definition throw {A : Type} (e : exn) : M A := fun st => mkOut st [] (Abrupt e).

Definition bind {A B : Type} (m : M A) (k : A -> M B) : M B :=
  fun st =>
    match m st with
    | mkOut st1 ev1 (Normal a) =>
        match k a st1 with
        | mkOut st2 ev2 r => mkOut st2 (ev1 ++ ev2) r
        end
    | mkOut st1 ev1 (Abrupt e) => mkOut st1 ev1 (Abrupt e)
    end.

Definition get : M state := fun st => mkOut st [] (Normal st).

Definition modify (f : state -> state) : M unit :=
  fun st => mkOut (f st) [] (Normal tt).

Definition emit (e : event) : M unit := fun st => mkOut st [e] (Normal tt).

Declare Scope js_scope.
Delimit Scope js_scope with js.
Notation "x <- m ;; k" := (bind m (fun x => k))
  (at level 61, m at next level, right associativity) : js_scope.
Notation "m ;; k" := (bind m (fun _ => k))
  (at level 61, right associativity) : js_scope.
Open Scope js_scope.

(* ================================================================== *)
(** ** The controller *)

(** What [openEmulator] can receive as [cardElement]: a card element (read
    through its [dataset]), the event object a listener is called with,
    [null] or [undefined]. *)
Inductive jsval : Type :=
| JCard (rom title : option string)
| JEvent
| JNull
| JUndefined.

(** [!v]. *)
Definition js_not (v : jsval) : bool :=
  match v with
  | JNull | JUndefined => true
  | JCard _ _ | JEvent => false
  end.

Definition card_of (n : node) : jsval :=
  JCard (node_attr "data-rom" n) (node_attr "data-title" n).

(** [document.querySelector(".game-card.game-card--rom")]. *)
Definition querySelector_card (doc : list node) : jsval :=
  match querySelector is_rom_card doc with
  | Some n => card_of n
  | None => JNull
  end.

(** [v.dataset[k]]: an event has no [dataset]; [null] has no properties. *)
Definition dataset (v : jsval) (k : string) : M (option string) :=
  match v with
  | JCard rom title =>
      ret (if String.eqb k "rom" then rom
           else if String.eqb k "title" then title else None)
  | JEvent =>
      throw (TypeError
        ("Cannot read properties of undefined (reading '" ++ k ++ "')")%string)
  | JNull | JUndefined =>
      throw (TypeError "Cannot read properties of null (reading 'dataset')")
  end.

Definition default_romPath : string :=
  "/[Poke-Nexus] Pokemon - Edicion Rojo Fuego (Esp).gba".
Definition default_gameTitle : string := "Pokemon".
Definition pathtodata : string := "jjjjj/EmulatorJS-main/data/".
Definition loader_src : string := (pathtodata ++ "loader.js")%string.
Definition not_found_text : string := "No encontrado".
Definition load_error_text : string :=
  "No se pudo cargar el emulador (loader.js). Revisa la ruta o abre la consola.".
Definition confirmText : string :=
  "Advertencia: si sales ahora NO se guardará el progreso. ¿Deseas salir sin guardar? (Antes guarda)".

Section Controller.

Context {hb : host}.
Variable cl : closure.

(* ---------------------------------------------------------------- *)
(** *** Search (lines 26-42) *)

Definition focus_gameBtn : M unit :=
  match gameBtn cl with
  | Some _ => emit EvFocusGameBtn
  | None => throw (TypeError "Cannot read properties of null (reading 'focus')")
  end.

(** [gameBtn.innerText]; the rendered text [label] is the browser's. *)
Definition gameBtn_innerText (label : string) : M string :=
  match gameBtn cl with
  | Some _ => ret label
  | None =>
      throw (TypeError "Cannot read properties of null (reading 'innerText')")
  end.

Definition searchBtn_click (value innerText : string) : M unit :=
  let q := toLowerCase (trim (or_default (Some value) "")) in
  if negb (truthy q) then focus_gameBtn
  else
    label <- gameBtn_innerText innerText ;;
    if includes (toLowerCase label) q || includes q "rojo"
       || includes q "pokemon" || includes q "buscar"
    then focus_gameBtn
    else
      st <- get ;;
      let ph := placeholder st in
      modify (set_placeholder not_found_text) ;;
      modify (fun st => set_timers (timers st ++ [ph]) st) ;;
      emit (EvSetTimeout 1000).

(** The oldest pending timer fires: [searchInput.placeholder = ph].  All
    timers are set with the same delay, so they fire in the order set. *)
Definition fire_timer (st : state) : state :=
  match timers st with
  | [] => st
  | ph :: rest => set_timers rest (set_placeholder ph st)
  end.

(* ---------------------------------------------------------------- *)
(** *** Entering and leaving the compact presentation (lines 57-97) *)

Definition enterGameUIState : M unit :=
  modify (fun st =>
    set_controlsSection
      (option_map (style_set "display" "none") (controlsSection st)) st) ;;
  modify (fun st =>
    set_titleLogo
      (option_map
         (fun l =>
            mkInline
              (style_write "margin-bottom" "6px"
                 (style_write "opacity" "0.9"
                    (style_write "width" "160px"
                       (style_write "transition"
                          "width 200ms ease, opacity 200ms ease"
                          (attr_text l))))))
         (titleLogo st)) st).

Definition rebound : list listener :=
  [("click", HRebindClick); ("keypress", HRebindKey)].

(** [getElementById("gameBtn")] followed by the two [addEventListener]
    calls: the first [#gameBtn] of the document receives the listeners. *)
Definition rebind_gameBtn (st : state) : state :=
  let p := has_id "gameBtn" in
  let f := add_listeners rebound in
  match update_first p f (before st) with
  | Some b => set_before b st
  | None =>
      match match launch st with
            | LaunchMenu kids => update_first p f kids
            | LaunchGame _ => None   (* the container holds no #gameBtn *)
            end with
      | Some k => set_launch (LaunchMenu k) st
      | None =>
          match update_first p f (after st) with
          | Some a => set_after a st
          | None => st
          end
      end
  end.

Definition restoreMenuUIState : M unit :=
  (* the parser's nodes are new: they carry no listener *)
  modify (set_launch
            (LaunchMenu (map strip (reparse (originalLaunchHTML cl))))) ;;
  modify (fun st =>
    set_titleLogo
      (option_map
         (fun _ =>
            if truthy (originalLogoStyle cl)
            then mkInline (Some (originalLogoStyle cl))
            else mkInline None)
         (titleLogo st)) st) ;;
  modify rebind_gameBtn ;;
  modify (fun st =>
    set_controlsSection
      (option_map (style_set "display" "") (controlsSection st)) st).

(* ---------------------------------------------------------------- *)
(** *** Starting a session (lines 99-188) *)

(** A mutation of an object of session [sid].  The objects of a session
    are in the document only while its container is the content of
    [#launch]; on a detached container the mutation is not observable. *)
Definition update_session (sid : nat) (f : session -> session)
  (st : state) : state :=
  match launch st with
  | LaunchGame s =>
      if Nat.eqb (s_id s) sid then set_launch (LaunchGame (f s)) st else st
  | LaunchMenu _ => st
  end.

Definition assign_global (name : string) (v : jsprim)
  (f : globals -> globals) : M unit :=
  modify (fun st => set_window (f (window st)) st) ;;
  emit (EvSetGlobal name v).

(** A global interpolated in a string. *)
Definition global_text (o : option string) : string :=
  match o with Some s => s | None => "undefined" end.

Definition script_node (src : string) (sid : nat) : node :=
  Elem "script" [("src", src); ("async", "")] []
    [("error", HLoadError sid)] [].

Definition err_node : node :=
  Elem "div" [] [("color", "white"); ("padding", "10px")] []
    [Text load_error_text].

Definition openEmulator (arg : jsval) : M unit :=
  st <- get ;;
  match getElementById "game" (document st) with
  | Some _ => ret tt
  | None =>
      let cardElement :=
        if js_not arg then querySelector_card (document st) else arg in
      enterGameUIState ;;
      st1 <- get ;;
      let sid := next_sid st1 in
      modify (set_next_sid (S sid)) ;;
      modify (set_launch (LaunchGame (mkSession sid [] [] []))) ;;
      rom <- dataset cardElement "rom" ;;
      let romPath := or_default rom default_romPath in
      title <- dataset cardElement "title" ;;
      let gameTitle := or_default title default_gameTitle in
      assign_global "EJS_player" (PStr "#game")
        (fun w => mkGlobals (Some "#game") (EJS_gameUrl w) (EJS_gameName w)
           (EJS_core w) (EJS_pathtodata w) (EJS_startOnLoaded w)
           (EJS_disableDatabases w) (EJS_disableLocalStorage w)
           (EJS_emulator w)) ;;
      assign_global "EJS_gameUrl" (PStr romPath)
        (fun w => mkGlobals (EJS_player w) (Some romPath) (EJS_gameName w)
           (EJS_core w) (EJS_pathtodata w) (EJS_startOnLoaded w)
           (EJS_disableDatabases w) (EJS_disableLocalStorage w)
           (EJS_emulator w)) ;;
      assign_global "EJS_gameName" (PStr gameTitle)
        (fun w => mkGlobals (EJS_player w) (EJS_gameUrl w) (Some gameTitle)
           (EJS_core w) (EJS_pathtodata w) (EJS_startOnLoaded w)
           (EJS_disableDatabases w) (EJS_disableLocalStorage w)
           (EJS_emulator w)) ;;
      assign_global "EJS_core" (PStr "gba")
        (fun w => mkGlobals (EJS_player w) (EJS_gameUrl w) (EJS_gameName w)
           (Some "gba") (EJS_pathtodata w) (EJS_startOnLoaded w)
           (EJS_disableDatabases w) (EJS_disableLocalStorage w)
           (EJS_emulator w)) ;;
      assign_global "EJS_pathtodata" (PStr pathtodata)
        (fun w => mkGlobals (EJS_player w) (EJS_gameUrl w) (EJS_gameName w)
           (EJS_core w) (Some pathtodata) (EJS_startOnLoaded w)
           (EJS_disableDatabases w) (EJS_disableLocalStorage w)
           (EJS_emulator w)) ;;
      assign_global "EJS_startOnLoaded" (PBool true)
        (fun w => mkGlobals (EJS_player w) (EJS_gameUrl w) (EJS_gameName w)
           (EJS_core w) (EJS_pathtodata w) (Some true)
           (EJS_disableDatabases w) (EJS_disableLocalStorage w)
           (EJS_emulator w)) ;;
      assign_global "EJS_disableDatabases" (PBool true)
        (fun w => mkGlobals (EJS_player w) (EJS_gameUrl w) (EJS_gameName w)
           (EJS_core w) (EJS_pathtodata w) (EJS_startOnLoaded w)
           (Some true) (EJS_disableLocalStorage w) (EJS_emulator w)) ;;
      assign_global "EJS_disableLocalStorage" (PBool true)
        (fun w => mkGlobals (EJS_player w) (EJS_gameUrl w) (EJS_gameName w)
           (EJS_core w) (EJS_pathtodata w) (EJS_startOnLoaded w)
           (EJS_disableDatabases w) (Some true) (EJS_emulator w)) ;;
      st2 <- get ;;
      let src :=
        (global_text (EJS_pathtodata (window st2)) ++ "loader.js")%string in
      modify (fun st => set_after (after st ++ [script_node src sid]) st) ;;
      emit (EvAppendScript src) ;;
      modify (update_session sid
        (fun s => mkSession (s_id s) (s_back s ++ [("click", HBack)])
                    (s_full s) (s_appended s))) ;;
      modify (update_session sid
        (fun s => mkSession (s_id s) (s_back s)
                    (s_full s ++ [("click", HFull)]) (s_appended s)))
  end.

(** [script.onerror] of the session created with identifier [sid]. *)
Definition script_onerror (sid : nat) : M unit :=
  modify (update_session sid
    (fun s => mkSession (s_id s) (s_back s) (s_full s)
                (s_appended s ++ [err_node]))) ;;
  emit (EvConsoleError "Failed to load loader.js from").

(* ---------------------------------------------------------------- *)
(** *** The exit control (lines 191-212) *)

(** The inner [try]: the hook is called only if the engine object exists
    and its [exit] is a function; what it throws is logged. *)
Definition engine_shutdown : M unit :=
  st <- get ;;
  match EJS_emulator (window st) with
  | EmuExit throws =>
      emit EvEngineExit ;;
      if throws then emit (EvConsoleWarn "EJS_emulator.exit failed")
      else ret tt
  | EmuNoExit | EmuUndefined => ret tt
  end.

(** [script[src^="P loader.js"], script[src^="P src/loader.js"]]. *)
Definition is_loader_script (p : string) (n : node) : bool :=
  match node_tag n, node_attr "src" n with
  | Some t, Some v =>
      String.eqb t "script"
      && (startsWith v (p ++ "loader.js")%string
          || startsWith v (p ++ "src/loader.js")%string)
  | _, _ => false
  end.

Definition remove_loader_scripts (st : state) : state :=
  let sel := is_loader_script (global_text (EJS_pathtodata (window st))) in
  let st1 := set_before (remove_all sel (before st)) st in
  let st2 :=
    match launch st1 with
    | LaunchMenu kids => set_launch (LaunchMenu (remove_all sel kids)) st1
    | LaunchGame _ => st1   (* the container holds no script element *)
    end in
  set_after (remove_all sel (after st2)) st2.

Definition backBtn_click (confirmed : bool) : M unit :=
  emit (EvConfirm confirmText) ;;
  if confirmed then
    engine_shutdown ;;
    modify remove_loader_scripts ;;
    restoreMenuUIState
  else ret tt.

(* ---------------------------------------------------------------- *)
(** *** The fullscreen control (lines 215-225) *)

(** [granted] is the browser's answer to the request. *)
Definition fullBtn_click (granted : bool) : M unit :=
  st <- get ;;
  (if negb (fullscreenElement st) then emit EvRequestFullscreen
   else emit EvExitFullscreen) ;;
  if granted
  then modify (set_fullscreenElement (negb (fullscreenElement st)))
  else emit (EvConsoleWarn "Fullscreen failed:").

(* ---------------------------------------------------------------- *)
(** *** Dispatching a DOM event to the listeners of a node *)

(** What the environment supplies with an event: the key pressed, the
    answer to [confirm], the outcome of a fullscreen request. *)
Record input : Type := mkInput {
  in_key : string;
  in_confirm : bool;
  in_granted : bool
}.

Definition activation_key (k : string) : bool :=
  String.eqb k " " || String.eqb k "Enter".

Definition run_handler (inp : input) (h : handler) : M unit :=
  match h with
  | HCardClick rom title => openEmulator (JCard rom title)
  | HCardKey rom title =>
      if activation_key (in_key inp) then openEmulator (JCard rom title)
      else ret tt
  | HRebindClick => openEmulator JEvent
  | HRebindKey =>
      if activation_key (in_key inp) then openEmulator JUndefined
      else ret tt
  | HBack => backBtn_click (in_confirm inp)
  | HFull => fullBtn_click (in_granted inp)
  | HLoadError sid => script_onerror sid
  end.

(** The result of an event: final state, events emitted, and the
    exceptions no listener caught (each is reported by the browser as an
    uncaught error; the remaining listeners still run).  *)
Record reaction : Type := mkReaction {
  re_state : state;
  re_events : list event;
  re_uncaught : list exn
}.

Fixpoint run_listeners (ev : string) (inp : input) (ls : list listener)
  (st : state) : reaction :=
  match ls with
  | [] => mkReaction st [] []
  | (ty, h) :: rest =>
      if String.eqb ty ev then
        let r := run_handler inp h st in
        let r' := run_listeners ev inp rest (out_state r) in
        mkReaction (re_state r') (out_events r ++ re_events r')
          (match out_result r with
           | Normal _ => re_uncaught r'
           | Abrupt e => e :: re_uncaught r'
           end)
      else run_listeners ev inp rest st
  end.

(** The listeners an event whose target is at [path] reaches, in the
    order they run: those of the target, then those of each ancestor. *)
Definition listeners_along (path : list nat) (doc : list node)
  : list listener :=
  flat_map node_listeners (rev (nodes_along path doc)).

(** The event [ev] on the node at [path] of the document.  The
    propagation path is fixed before the first listener runs. *)
Definition dispatch (ev : string) (inp : input) (path : list nat)
  (st : state) : reaction :=
  run_listeners ev inp (listeners_along path (document st)) st.

Definition react {A : Type} (r : outcome A) : reaction :=
  mkReaction (out_state r) (out_events r)
    (match out_result r with Normal _ => [] | Abrupt e => [e] end).

(** Everything that can happen to the page. *)
Inductive label : Type :=
| LSearch (value innerText : string)     (* click on #searchBtn *)
| LEvent (ev : string) (inp : input) (path : list nat)
| LScriptError (sid : nat)               (* the loader of session sid fails *)
| LTimer                                 (* the oldest timer fires *)
| LEngine (e : emulator)                 (* the engine sets EJS_emulator *)
| LFullscreenChange (b : bool).          (* the browser enters or leaves
                                            fullscreen on its own *)

Definition set_emulator (e : emulator) (st : state) : state :=
  let w := window st in
  set_window
    (mkGlobals (EJS_player w) (EJS_gameUrl w) (EJS_gameName w) (EJS_core w)
       (EJS_pathtodata w) (EJS_startOnLoaded w) (EJS_disableDatabases w)
       (EJS_disableLocalStorage w) e) st.

Definition step (l : label) (st : state) : reaction :=
  match l with
  | LSearch value innerText =>
      react (searchBtn_click value innerText st)
  | LEvent ev inp path => dispatch ev inp path st
  | LScriptError sid =>
      if Nat.ltb sid (next_sid st) then react (script_onerror sid st)
      else mkReaction st [] []
  | LTimer => mkReaction (fire_timer st) [] []
  | LEngine e => mkReaction (set_emulator e st) [] []
  | LFullscreenChange b => mkReaction (set_fullscreenElement b st) [] []
  end.

Fixpoint run (ls : list label) (st : state) : state :=
  match ls with
  | [] => st
  | l :: rest => run rest (re_state (step l st))
  end.

End Controller.

(* ================================================================== *)
(** ** Initialisation (lines 8-54) *)

(** The page as loaded, before the [DOMContentLoaded] listener runs:
    [#search], [#searchBtn] and [#launch] exist (the listener dereferences
    them unguarded); [#title-logo] and [.controls] may be missing. *)
Record page : Type := mkPage {
  pg_body_classes : list string;
  pg_before : list node;
  pg_launch : list node;
  pg_after : list node;
  pg_logo : option (option string);   (* #title-logo and its style attribute *)
  pg_controls : option style;
  pg_placeholder : string
}.

Definition card_listeners (n : node) : list listener :=
  [("click", HCardClick (node_attr "data-rom" n) (node_attr "data-title" n));
   ("keypress", HCardKey (node_attr "data-rom" n) (node_attr "data-title" n))].

(** [gameCards.forEach(card => ...)]: every card of the page, at any
    depth, receives its two listeners.  Markup carries no listeners of the
    controller, so the parsed nodes start without any. *)
Fixpoint bind_cards (n : node) : node :=
  match n with
  | Elem t a css _ kids =>
      Elem t a css
        (if is_rom_card n then card_listeners n else [])
        (map bind_cards kids)
  | Text s => Text s
  end.

(** [classList.add]. *)
Definition classList_add (c : string) (l : list string) : list string :=
  if existsb (String.eqb c) l then l else l ++ [c].

Definition no_globals : globals :=
  mkGlobals None None None None None None None None EmuUndefined.

Definition init_closure (pg : page) : closure :=
  mkClosure
    (innerHTML (pg_launch pg))
    (match pg_logo pg with
     | Some a => or_default a ""
     | None => ""
     end)
    (getElementById "gameBtn" (pg_before pg ++ pg_launch pg ++ pg_after pg)).

Definition init_state (pg : page) : state :=
  mkState
    (classList_add "dark-mode" (pg_body_classes pg))
    (map bind_cards (pg_before pg))
    (LaunchMenu (map bind_cards (pg_launch pg)))
    (map bind_cards (pg_after pg))
    0
    (option_map mkInline (pg_logo pg))
    (pg_controls pg)
    (pg_placeholder pg)
    []
    no_globals
    false.

Section Contract.

Context {hb : host}.

(** The states the page can be in after any history of events. *)
Definition reachable (pg : page) (st : state) : Prop :=
  exists ls, st = run (init_closure pg) ls (init_state pg).

(* ================================================================== *)
(** ** The search contract of the specification *)

Inductive Action : Type := FocusTarget | NotFound.

Definition keywords : list string := ["rojo"; "pokemon"; "buscar"].

(** The contract [search(query, targetLabel)] as the specification words
    it; [searchBtn_click] above is the code it is compared with. *)
Definition search_contract (query targetLabel : string) : Action :=
  let q := toLowerCase (trim query) in
  if String.eqb q "" then FocusTarget
  else if includes (toLowerCase targetLabel) q
          || existsb (includes q) keywords
       then FocusTarget
       else NotFound.

End Contract.

(** Every pending timer fires. *)
Definition flush_timers (st : state) : state :=
  Nat.iter (length (timers st)) fire_timer st.

(* ================================================================== *)
(** ** A sample page *)

Module Sample.

(** A host for sample runs: text of the ASCII range, markup that comes
    back from [innerHTML] as it was serialised (as the markup of the pages
    below does), and style writes that append their declaration. *)
Definition ahost : host :=
  mkHost ascii_toLowerCase ascii_trim (fun l => l)
    (fun k v a =>
       Some (match a with Some s => s | None => "" end
             ++ k ++ ": " ++ v ++ ";")%string)
    (fun _ _ e => e).

#[local] Existing Instance ahost.

Definition card : node :=
  Elem "button"
    [("id", "gameBtn"); ("class", "game-card game-card--rom");
     ("data-rom", "/a.gba"); ("data-title", "Foo")]
    [] [] [Text "Pokemon Rojo Fuego"].

(** The text the card renders: what [innerText] gives for it. *)
Definition card_text : string := "Pokemon Rojo Fuego".

(** One card in [#launch]; the logo carries an empty [style] attribute. *)
Definition pg : page :=
  mkPage [] [] [card] [] (Some (Some "")) (Some []) "Buscar juego...".

Definition cl : closure := init_closure pg.
Definition st0 : state := init_state pg.

Definition inp (key : string) (confirm : bool) : input :=
  mkInput key confirm true.

(** Paths in the document: the card while the menu shows, the exit
    control while a session shows. *)
Definition card_path : list nat := [0].
Definition back_path : list nat := [0; 0; 0; 0].

Definition enter : label := LEvent "click" (inp "" true) card_path.
Definition exit_confirmed : label := LEvent "click" (inp "" true) back_path.
Definition exit_declined : label := LEvent "click" (inp "" false) back_path.
Definition enter_by_key : label := LEvent "keypress" (inp "Enter" true) card_path.

(** In a session. *)
Definition st_game : state := run cl [enter] st0.
(** Back in the menu after one cycle. *)
Definition st_menu : state := run cl [enter; exit_confirmed] st0.
(** After a click on the restored card: the listener bound at line 84. *)
Definition st_dead : state := run cl [enter; exit_confirmed; enter] st0.

End Sample.


(* ================================================================== *)
(** ** Notions used in the statements *)

Section Notions.

Context {hb : host}.

(** A selector that looks at the tag and the attributes only. *)
Definition shape_pred (p : node -> bool) : Prop :=
  forall t a css ls kids css' ls' kids',
    p (Elem t a css ls kids) = p (Elem t a css' ls' kids').

Definition no_game (l : list node) : Prop := getElementById "game" l = None.

Definition logo_present (o : option inline_style) : bool :=
  match o with Some _ => true | None => false end.

(** The state a [NotFound] search leaves: the message is shown and a
    timer holding the previous placeholder is pending. *)
Definition show_not_found (st : state) : state :=
  set_timers (timers st ++ [placeholder st])
    (set_placeholder not_found_text st).

(** The listeners that call [openEmulator]. *)
Definition is_activation (h : handler) : bool :=
  match h with
  | HCardClick _ _ | HCardKey _ _ | HRebindClick | HRebindKey => true
  | HBack | HFull | HLoadError _ => false
  end.

(** The globals after an activation for a card with [data-rom = rom] and
    [data-title = title]. *)
Definition configured (rom title : option string) (w : globals) : globals :=
  mkGlobals (Some "#game")
    (Some (or_default rom default_romPath))
    (Some (or_default title default_gameTitle))
    (Some "gba") (Some pathtodata) (Some true) (Some true) (Some true)
    (EJS_emulator w).

(** The text the prompt warns with. *)
Definition unsaved_warning : string := "NO se guardará el progreso".

(** The logo after [restoreMenuUIState]: the saved text is put back as
    the [style] attribute, and an empty saved text removes the attribute. *)
Definition restored_logo (cl : closure) : inline_style :=
  if truthy (originalLogoStyle cl)
  then mkInline (Some (originalLogoStyle cl))
  else mkInline None.

(** The children [#launch] receives when the saved markup is assigned to
    its [innerHTML]: freshly parsed nodes, without listeners. *)
Definition restored_markup (cl : closure) : list node :=
  map strip (reparse (originalLaunchHTML cl)).

(** The state a confirmed exit leaves. *)
Definition exit_state (cl : closure) (st : state) : state :=
  let st1 := remove_loader_scripts st in
  let st2 := set_launch (LaunchMenu (restored_markup cl)) st1 in
  let st3 :=
    set_titleLogo (option_map (fun _ => restored_logo cl) (titleLogo st2)) st2 in
  let st4 := rebind_gameBtn st3 in
  set_controlsSection
    (option_map (style_set "display" "") (controlsSection st4)) st4.

(** What the shutdown attempt emits. *)
Definition shutdown_events (e : emulator) : list event :=
  match e with
  | EmuExit false => [EvEngineExit]
  | EmuExit true => [EvEngineExit; EvConsoleWarn "EJS_emulator.exit failed"]
  | EmuNoExit | EmuUndefined => []
  end.

(** [setAttribute("style", s)] for a non-empty saved text [s],
    [removeAttribute("style")] otherwise: an attribute that was present
    but empty is not put back. *)
Definition drop_empty (a : option string) : option string :=
  match a with
  | Some s => if truthy s then Some s else None
  | None => None
  end.

(** The path of the exit control in the document while a session shows. *)
Definition backBtn_path (st : state) : list nat :=
  [length (before st); 0; 0; 0].

(** The session objects after the error element was appended. *)
Definition with_error (s : session) : session :=
  mkSession (s_id s) (s_back s) (s_full s) (s_appended s ++ [err_node]).

Definition event_has_no_dataset : exn :=
  TypeError "Cannot read properties of undefined (reading 'rom')".

(** The value [openEmulator] works with after line 102. *)
Definition resolve_card (arg : jsval) (st : state) : jsval :=
  if js_not arg then querySelector_card (document st) else arg.

Definition null_has_no_dataset : exn :=
  TypeError "Cannot read properties of null (reading 'dataset')".

(** The logo in the compact presentation. *)
Definition compact_logo (l : inline_style) : inline_style :=
  mkInline
    (style_write "margin-bottom" "6px"
       (style_write "opacity" "0.9"
          (style_write "width" "160px"
             (style_write "transition" "width 200ms ease, opacity 200ms ease"
                (attr_text l))))).

(** The state when line 163 throws: compact presentation, a fresh
    session container without listeners, nothing else touched. *)
Definition half_entered (st : state) : state :=
  mkState (body_classes st) (before st)
    (LaunchGame (mkSession (next_sid st) [] [] []))
    (after st) (S (next_sid st))
    (option_map compact_logo (titleLogo st))
    (option_map (style_set "display" "none") (controlsSection st))
    (placeholder st) (timers st) (window st) (fullscreenElement st).

(** The state after a complete activation for a card. *)
Definition entered (rom title : option string) (st : state) : state :=
  mkState (body_classes st) (before st)
    (LaunchGame
       (mkSession (next_sid st) [("click", HBack)] [("click", HFull)] []))
    (after st ++ [script_node loader_src (next_sid st)]) (S (next_sid st))
    (option_map compact_logo (titleLogo st))
    (option_map (style_set "display" "none") (controlsSection st))
    (placeholder st) (timers st) (configured rom title (window st))
    (fullscreenElement st).

(** The events of a complete activation, in the order emitted. *)
Definition activation_events (rom title : option string) : list event :=
  [EvSetGlobal "EJS_player" (PStr "#game");
   EvSetGlobal "EJS_gameUrl" (PStr (or_default rom default_romPath));
   EvSetGlobal "EJS_gameName" (PStr (or_default title default_gameTitle));
   EvSetGlobal "EJS_core" (PStr "gba");
   EvSetGlobal "EJS_pathtodata" (PStr pathtodata);
   EvSetGlobal "EJS_startOnLoaded" (PBool true);
   EvSetGlobal "EJS_disableDatabases" (PBool true);
   EvSetGlobal "EJS_disableLocalStorage" (PBool true);
   EvAppendScript loader_src].

(** What holds of every state [st] reachable from the page [pg]:
    - the logo element exists or not as on the page;
    - while the menu shows, its markup is the one loaded or the one a
      restoration installs, and the logo is as loaded or as restored;
    - while a session shows, the rest of the document and the markup a
      restoration installs have no [#game], and the session is one that
      was created. *)
Definition Inv (pg : page) (st : state) : Prop :=
  logo_present (titleLogo st) = logo_present (titleLogo (init_state pg))
  /\ match launch st with
     | LaunchMenu k =>
         (innerHTML k = originalLaunchHTML (init_closure pg)
          \/ innerHTML k = restored_markup (init_closure pg))
         /\ (titleLogo st = titleLogo (init_state pg)
             \/ titleLogo st
                = option_map (fun _ => restored_logo (init_closure pg))
                    (titleLogo (init_state pg)))
     | LaunchGame s =>
         no_game (before st) /\ no_game (after st)
         /\ no_game (restored_markup (init_closure pg))
         /\ s_id s < next_sid st
     end.

End Notions.

(** A second sample page: [#launch] holds [#gameBtn] and another card. *)
Module Sample2.

Definition other_card : node :=
  Elem "button"
    [("class", "game-card game-card--rom");
     ("data-rom", "/b.gba"); ("data-title", "Bar")]
    [] [] [Text "Otro juego"].

Definition pg : page :=
  mkPage [] [] [Dom.strip Sample.card; other_card] [] None None "".

End Sample2.

(** A third sample page: another card comes before [#gameBtn]. *)
Module Sample3.

#[local] Existing Instance Sample.ahost.

Definition pg : page :=
  mkPage [] [] [Sample2.other_card; Sample.card] [] None None "".

Definition cl : closure := init_closure pg.
Definition st0 : state := init_state pg.

Definition gameBtn_path : list nat := [1].

(** Back in the menu after a session started from [#gameBtn]. *)
Definition st_menu : state :=
  run cl [LEvent "click" (Sample.inp "" true) gameBtn_path;
          Sample.exit_confirmed] st0.

Definition key_on_gameBtn : label :=
  LEvent "keypress" (Sample.inp "Enter" true) gameBtn_path.

End Sample3.

(** The document of the page as loaded. *)
Definition page_document (pg : page) : list node :=
  pg_before pg ++ pg_launch pg ++ pg_after pg.

(** The rest of the document has no mount point. *)
Definition NoStatic (st : state) : Prop :=
  no_game (before st) /\ no_game (after st).

(** [P] holds of a node and of all its descendants. *)
Fixpoint all_nodes (P : node -> Prop) (n : node) : Prop :=
  P n /\
  match n with
  | Elem _ _ _ _ kids => fold_right (fun k acc => all_nodes P k /\ acc) True kids
  | Text _ => True
  end.

(** A [script] element whose [src] attribute starts with [p]. *)
Definition script_from (p : string) (n : node) : Prop :=
  node_tag n = Some "script"
  /\ exists v, node_attr "src" n = Some v /\ startsWith v p = true.

(** A property that does not look at the children of a node. *)
Definition kid_blind (P : node -> Prop) : Prop :=
  forall t a css ls kids kids',
    P (Elem t a css ls kids) -> P (Elem t a css ls kids').

(** The node does not carry the exit handler. *)
Definition no_back (n : node) : Prop :=
  Forall (fun l : listener => snd l <> HBack) (node_listeners n).

(** The node carries no listener unless it is [#gameBtn]. *)
Definition inert_unless_gameBtn (n : node) : Prop :=
  has_id "gameBtn" n = false -> node_listeners n = [].

(** No node around [#launch] carries the exit handler, and neither does
    anything of the session container except possibly its exit control. *)
Definition Keeps (st : state) : Prop :=
  Forall (all_nodes no_back) (before st)
  /\ Forall (all_nodes no_back) (after st)
  /\ match launch st with
     | LaunchGame s =>
         Forall (fun l : listener => snd l <> HBack) (s_full s)
         /\ Forall (all_nodes no_back) (s_appended s)
     | LaunchMenu _ => True
     end.

(** A session container whose exit control has no listener. *)
Definition Dead (st : state) : Prop :=
  exists s, launch st = LaunchGame s /\ s_back s = [].

(* ================================================================== *)
(** ** Laws of the effect monad *)

Lemma bind_get {B : Type} (k : state -> M B) (st : state) :
  bind get k st = k st st.
Proof. unfold bind, get. now destruct (k st st). Qed.

Lemma bind_modify {B : Type} (f : state -> state) (k : unit -> M B)
  (st : state) :
  bind (modify f) k st = k tt (f st).
Proof. unfold bind, modify. now destruct (k tt (f st)). Qed.

Lemma bind_emit {B : Type} (e : event) (k : unit -> M B) (st : state) :
  bind (emit e) k st =
  mkOut (out_state (k tt st)) (e :: out_events (k tt st))
    (out_result (k tt st)).
Proof. unfold bind, emit. now destruct (k tt st). Qed.

Lemma bind_ret {A B : Type} (a : A) (k : A -> M B) (st : state) :
  bind (ret a) k st = k a st.
Proof. unfold bind, ret. now destruct (k a st). Qed.

Lemma bind_throw {A B : Type} (e : exn) (k : A -> M B) (st : state) :
  bind (throw e) k st = mkOut st [] (Abrupt e).
Proof. reflexivity. Qed.

Lemma bind_assoc {A B C : Type} (m : M A) (f : A -> M B) (g : B -> M C)
  (st : state) :
  bind (bind m f) g st = bind m (fun x => bind (f x) g) st.
Proof.
  unfold bind. destruct (m st) as [s1 e1 [a|e]]; [|reflexivity].
  destruct (f a s1) as [s2 e2 [b|e]]; [|reflexivity].
  destruct (g b s2) as [s3 e3 r]. now rewrite app_assoc.
Qed.

Lemma bind_emit_out {B : Type} (e : event) (k : unit -> M B)
  (st s2 : state) (e2 : list event) (r : completion B) :
  k tt st = mkOut s2 e2 r -> bind (emit e) k st = mkOut s2 (e :: e2) r.
Proof. intros H. unfold bind, emit. now rewrite H. Qed.

(** Field accesses on updated states. *)
Ltac simpl_state :=
  cbn [set_before set_launch set_after set_next_sid set_titleLogo
       set_controlsSection set_placeholder set_timers set_window
       set_fullscreenElement body_classes before launch after next_sid
       titleLogo controlsSection placeholder timers window fullscreenElement
       EJS_player EJS_gameUrl EJS_gameName EJS_core EJS_pathtodata
       EJS_startOnLoaded EJS_disableDatabases EJS_disableLocalStorage
       EJS_emulator global_text].

(** Run a monadic computation one operation at a time. *)
Ltac exec :=
  repeat (first [ rewrite bind_assoc | rewrite bind_get | rewrite bind_modify
                | rewrite bind_ret | rewrite bind_throw
                | apply bind_emit_out ];
          cbv beta; simpl_state).

(* ================================================================== *)
(** * Properties of the controller, for every host *)

Section Properties.

Context {hb : host}.

(* ================================================================== *)
(** ** Facts about strings *)

Section StringFacts.

Lemma startsWith_spec s t :
  startsWith s t = true <-> exists b, s = (t ++ b)%string.
Proof.
  revert s; induction t as [|c t IH]; intros s; simpl.
  - split; [intros _; now exists s | intros _; now destruct s].
  - destruct s as [|a s]; simpl.
    + split; [discriminate | intros [b Hb]; discriminate].
    + rewrite andb_true_iff, IH, Ascii.eqb_eq. split.
      * intros [-> [b ->]]. now exists b.
      * intros [b Hb]. injection Hb as -> ->. split; [reflexivity | now exists b].
Qed.

Lemma includes_spec s t : includes s t = true <-> occurs_in t s.
Proof.
  unfold occurs_in. induction s as [|c s IH]; cbn [includes].
  - rewrite orb_false_r, startsWith_spec. split.
    + intros [b Hb]. now exists EmptyString, b.
    + intros [a [b Hb]]. destruct a; simpl in Hb; [now exists b | discriminate].
  - rewrite orb_true_iff, IH, startsWith_spec. split.
    + intros [[b Hb] | [a [b Hb]]].
      * now exists EmptyString, b.
      * exists (String c a), b. simpl. now rewrite Hb.
    + intros [a [b Hb]]. destruct a as [|c' a]; simpl in Hb.
      * left. now exists b.
      * right. injection Hb as _ ->. now exists a, b.
Qed.


End StringFacts.

(* ================================================================== *)
(** ** Facts about document queries *)

Section QueryFacts.


Lemma has_id_shape i : shape_pred (has_id i).
Proof. intros t a css ls kids css' ls' kids'. reflexivity. Qed.

Lemma first_some_app {A B : Type} (f : A -> option B) (l1 l2 : list A) :
  first_some f (l1 ++ l2) =
  match first_some f l1 with
  | Some y => Some y
  | None => first_some f l2
  end.
Proof.
  induction l1 as [|x l1 IH]; simpl; [reflexivity|].
  destruct (f x); [reflexivity | exact IH].
Qed.

Lemma strip_idem n : strip (strip n) = strip n.
Proof.
  induction n as [s | t a css ls kids IH] using node_forall_ind;
    simpl; [reflexivity|].
  f_equal. rewrite map_map. apply map_ext_Forall. exact IH.
Qed.

Lemma innerHTML_idem l : innerHTML (innerHTML l) = innerHTML l.
Proof.
  unfold innerHTML. rewrite map_map. apply map_ext. exact strip_idem.
Qed.

Lemma strip_bind_cards n : strip (bind_cards n) = strip n.
Proof.
  induction n as [s | t a css ls kids IH] using node_forall_ind;
    simpl; [reflexivity|].
  f_equal. rewrite map_map. apply map_ext_Forall. exact IH.
Qed.

Lemma innerHTML_bind_cards l : innerHTML (map bind_cards l) = innerHTML l.
Proof.
  unfold innerHTML. rewrite map_map. apply map_ext. exact strip_bind_cards.
Qed.

Variable p : node -> bool.
Hypothesis Hp : shape_pred p.

Lemma find_node_strip n :
  find_node p (strip n) = option_map strip (find_node p n).
Proof.
  induction n as [s | t a css ls kids IH] using node_forall_ind.
  - simpl. destruct (p (Text s)); reflexivity.
  - cbn [strip find_node].
    rewrite (Hp t a css [] (map strip kids) css ls kids).
    destruct (p (Elem t a css ls kids)); [reflexivity|].
    induction IH as [|x l Hx _ IHl]; simpl; [reflexivity|].
    rewrite Hx. destruct (find_node p x); simpl; [reflexivity | exact IHl].
Qed.

Lemma querySelector_innerHTML l :
  querySelector p (innerHTML l) = option_map strip (querySelector p l).
Proof.
  unfold querySelector, innerHTML.
  induction l as [|x l IH]; simpl; [reflexivity|].
  rewrite find_node_strip.
  destruct (find_node p x); simpl; [reflexivity | exact IH].
Qed.

(** Two node lists with the same markup answer [p] alike. *)
Lemma querySelector_same_markup l l' :
  innerHTML l = innerHTML l' ->
  querySelector p l = None -> querySelector p l' = None.
Proof.
  intros E H.
  assert (H' : querySelector p (innerHTML l') = None).
  { rewrite <- E, querySelector_innerHTML, H. reflexivity. }
  rewrite querySelector_innerHTML in H'.
  destruct (querySelector p l'); [discriminate | reflexivity].
Qed.

End QueryFacts.

Section UpdateFacts.

Variable q : node -> bool.
Variable new : list listener.

Lemma strip_add_listeners n : strip (add_listeners new n) = strip n.
Proof. destruct n; reflexivity. Qed.

Lemma update_node_markup n n' :
  update_node q (add_listeners new) n = Some n' -> strip n' = strip n.
Proof.
  revert n'.
  induction n as [s | t a css ls kids IH] using node_forall_ind; intros n'.
  - simpl. destruct (q (Text s)); [|discriminate].
    intros H; injection H as <-. reflexivity.
  - cbn [update_node].
    destruct (q (Elem t a css ls kids)).
    + intros H; injection H as <-. reflexivity.
    + destruct (first_update (update_node q (add_listeners new)) kids)
        as [kids'|] eqn:E; [|discriminate].
      intros H; injection H as <-. simpl. f_equal.
      revert kids' E.
      induction IH as [|x l Hx _ IHl]; intros kids' E; simpl in E;
        [discriminate|].
      destruct (update_node q (add_listeners new) x) as [x'|] eqn:Ex.
      * injection E as <-. simpl. now rewrite (Hx x').
      * destruct (first_update (update_node q (add_listeners new)) l)
          as [l'|] eqn:El; [|discriminate].
        injection E as <-. simpl. now rewrite (IHl l').
Qed.

(** Adding listeners does not change the markup of the document. *)
Lemma update_first_markup l l' :
  update_first q (add_listeners new) l = Some l' ->
  innerHTML l' = innerHTML l.
Proof.
  unfold update_first, innerHTML. revert l'.
  induction l as [|x l IH]; intros l' E; simpl in E; [discriminate|].
  destruct (update_node q (add_listeners new) x) as [x'|] eqn:Ex.
  - injection E as <-. simpl. now rewrite (update_node_markup x x').
  - destruct (first_update (update_node q (add_listeners new)) l)
      as [l0|] eqn:El; [|discriminate].
    injection E as <-. simpl. now rewrite (IH l0).
Qed.

End UpdateFacts.

Section RemoveFacts.

Variable q : node -> bool.
Hypothesis Hq : shape_pred q.

Lemma find_node_prune_self n :
  q n = false -> find_node q (prune q n) = None.
Proof.
  induction n as [s | t a css ls kids IH] using node_forall_ind; intros Hn.
  - simpl. now rewrite Hn.
  - cbn [prune find_node].
    rewrite (Hq t a css ls (drop_map q (prune q) kids) css ls kids), Hn.
    clear Hn. induction IH as [|x l Hx _ IHl]; simpl; [reflexivity|].
    destruct (q x) eqn:Ex; [exact IHl|].
    simpl. rewrite (Hx eq_refl). exact IHl.
Qed.

(** Nothing that satisfies [q] is left after [remove_all q]. *)
Lemma querySelector_remove_all_self l :
  querySelector q (remove_all q l) = None.
Proof.
  unfold querySelector, remove_all.
  induction l as [|x l IH]; simpl; [reflexivity|].
  destruct (q x) eqn:Ex; [exact IH|].
  simpl. rewrite (find_node_prune_self x Ex). exact IH.
Qed.

Variable p : node -> bool.
Hypothesis Hp : shape_pred p.

Lemma find_node_prune_none n :
  find_node p n = None -> find_node p (prune q n) = None.
Proof.
  induction n as [s | t a css ls kids IH] using node_forall_ind.
  - simpl. intros H; exact H.
  - cbn [prune find_node].
    rewrite (Hp t a css ls (drop_map q (prune q) kids) css ls kids).
    destruct (p (Elem t a css ls kids)); [discriminate|].
    induction IH as [|x l Hx _ IHl]; simpl; [reflexivity|].
    destruct (find_node p x) eqn:Ex; [discriminate|]. intros Hl.
    destruct (q x); [exact (IHl Hl)|].
    simpl. rewrite (Hx eq_refl). exact (IHl Hl).
Qed.

(** Removing nodes creates no match for another selector. *)
Lemma querySelector_remove_all_none l :
  querySelector p l = None -> querySelector p (remove_all q l) = None.
Proof.
  unfold querySelector, remove_all.
  induction l as [|x l IH]; simpl; [reflexivity|].
  destruct (find_node p x) eqn:Ex; [discriminate|]. intros Hl.
  destruct (q x); [exact (IH Hl)|].
  simpl. rewrite (find_node_prune_none x Ex). exact (IH Hl).
Qed.

End RemoveFacts.

(* ================================================================== *)
(** ** Search *)

Lemma or_default_value (s : string) : or_default (Some s) "" = s.
Proof. destruct s; reflexivity. Qed.

Lemma eqb_empty_truthy (s : string) : String.eqb s "" = negb (truthy s).
Proof. destruct s; reflexivity. Qed.


Lemma keywords_unfold (q : string) :
  includes q "rojo" || includes q "pokemon" || includes q "buscar"
  = existsb (includes q) keywords.
Proof.
  unfold keywords. cbn [existsb].
  destruct (includes q "rojo"), (includes q "pokemon"), (includes q "buscar");
    reflexivity.
Qed.


Lemma search_contract_unfold (value label : string) :
  search_contract value label =
  if negb (truthy (toLowerCase (trim value))) then FocusTarget
  else if includes (toLowerCase label) (toLowerCase (trim value))
          || existsb (includes (toLowerCase (trim value))) keywords
       then FocusTarget else NotFound.
Proof. unfold search_contract. now rewrite eqb_empty_truthy. Qed.

(** The handler does what the contract's result says. *)
Lemma searchBtn_click_spec
  (cl : closure) (btn : node) (value label : string) (st : state) :
  gameBtn cl = Some btn ->
  searchBtn_click cl value label st =
  match search_contract value label with
  | FocusTarget => mkOut st [EvFocusGameBtn] (Normal tt)
  | NotFound => mkOut (show_not_found st) [EvSetTimeout 1000] (Normal tt)
  end.
Proof.
  intros Hbtn. rewrite search_contract_unfold.
  unfold searchBtn_click. rewrite or_default_value.
  unfold focus_gameBtn, gameBtn_innerText. rewrite Hbtn.
  set (q := toLowerCase (trim value)).
  destruct (truthy q); [|reflexivity]. cbn [negb].
  rewrite bind_ret.
  rewrite <- orb_assoc, <- orb_assoc, (orb_assoc (includes q "rojo")),
    keywords_unfold.
  destruct (includes (toLowerCase label) q
            || existsb (includes q) keywords); [reflexivity|].
  rewrite bind_get, !bind_modify. reflexivity.
Qed.




(* ================================================================== *)
(** ** Starting a session *)

(** [openEmulator] past its guard, for each kind of argument. *)
Lemma openEmulator_menu (arg : jsval) (st : state) :
  getElementById "game" (document st) = None ->
  openEmulator arg st =
  match resolve_card arg st with
  | JCard rom title =>
      mkOut (entered rom title st) (activation_events rom title) (Normal tt)
  | JEvent => mkOut (half_entered st) [] (Abrupt event_has_no_dataset)
  | JNull | JUndefined =>
      mkOut (half_entered st) [] (Abrupt null_has_no_dataset)
  end.
Proof.
  intros G. unfold openEmulator. rewrite bind_get, G. cbv zeta.
  fold (resolve_card arg st).
  unfold enterGameUIState, assign_global, activation_events.
  destruct (resolve_card arg st) as [rom title| | |];
    cbn [dataset String.eqb Ascii.eqb Bool.eqb]; exec; try reflexivity.
  unfold modify, update_session. simpl_state. cbn [s_id].
  rewrite !Nat.eqb_refl. simpl_state. cbn [s_id]. rewrite !Nat.eqb_refl.
  reflexivity.
Qed.

Lemma openEmulator_guarded (arg : jsval) (st : state) (n : node) :
  getElementById "game" (document st) = Some n ->
  openEmulator arg st = mkOut st [] (Normal tt).
Proof.
  intros G. unfold openEmulator. now rewrite bind_get, G.
Qed.

Lemma sessionState_InGame (st : state) :
  sessionState st = InGame <->
  exists n, getElementById "game" (document st) = Some n.
Proof.
  unfold sessionState. destruct (getElementById "game" (document st)) as [n|].
  - split; [intros _; now exists n | reflexivity].
  - split; [discriminate | intros [n Hn]; discriminate].
Qed.

Lemma sessionState_Menu (st : state) :
  sessionState st = Menu <-> getElementById "game" (document st) = None.
Proof.
  unfold sessionState. destruct (getElementById "game" (document st)).
  - split; discriminate.
  - split; reflexivity.
Qed.


(** C2.  While a mount point [#game] exists, [openEmulator] returns at
    its guard whatever it is called with: the state is the same (document,
    loader globals, session counter), no event is emitted (no global is
    written, no script appended) and nothing is thrown.  The same holds
    for every listener that calls it, so no second session can start
    while one is shown. *)
Theorem openEmulator_guard_no_change
  (cl : closure) (arg : jsval) (st : state) :
  sessionState st = InGame ->
  openEmulator arg st = mkOut st [] (Normal tt)
  /\ forall inp h, is_activation h = true ->
       run_handler cl inp h st = mkOut st [] (Normal tt).
Proof.
  intros H. apply sessionState_InGame in H. destruct H as [n Hn].
  assert (G : forall a, openEmulator a st = mkOut st [] (Normal tt))
    by (intros a; exact (openEmulator_guarded a st n Hn)).
  split; [apply G|].
  intros inp h Hh. destruct h; try discriminate; cbn [run_handler];
    try apply G; destruct (activation_key (in_key inp)); try apply G;
    reflexivity.
Qed.



(* ================================================================== *)
(** ** Leaving a session *)


(** The handler of the exit control asks for confirmation with a text
    that says the progress will not be saved; when the user declines it
    does nothing else: the state (document, session objects, loader
    globals, timers) is the one before the click, and so is the session
    state. *)
Lemma declined_exit_changes_nothing (cl : closure) (st : state) :
  backBtn_click cl false st = mkOut st [EvConfirm confirmText] (Normal tt)
  /\ occurs_in unsaved_warning confirmText
  /\ sessionState (out_state (backBtn_click cl false st)) = sessionState st
  /\ forall key granted,
       run_listeners cl "click" (mkInput key false granted)
         [("click", HBack)] st
       = mkReaction st [EvConfirm confirmText] [].
Proof.
  split; [reflexivity|]. split; [now apply includes_spec|].
  split; reflexivity.
Qed.




Lemma backBtn_click_confirmed (cl : closure) (st : state) :
  backBtn_click cl true st
  = mkOut (exit_state cl st)
      (EvConfirm confirmText :: shutdown_events (EJS_emulator (window st)))
      (Normal tt).
Proof.
  unfold backBtn_click, engine_shutdown, bind, emit, get.
  cbn [out_result out_state out_events].
  destruct (EJS_emulator (window st)) as [| |[|]]; reflexivity.
Qed.

Lemma is_loader_script_shape (p : string) : shape_pred (is_loader_script p).
Proof. intros t a css ls kids css' ls' kids'. reflexivity. Qed.

(** [rebind_gameBtn] adds listeners to one node and changes nothing else:
    the markup of each region is the same. *)
Lemma rebind_gameBtn_spec (st : state) :
  let st' := rebind_gameBtn st in
  innerHTML (before st') = innerHTML (before st)
  /\ innerHTML (after st') = innerHTML (after st)
  /\ match launch st with
     | LaunchMenu k =>
         exists k', launch st' = LaunchMenu k' /\ innerHTML k' = innerHTML k
     | LaunchGame s => launch st' = LaunchGame s
     end
  /\ titleLogo st' = titleLogo st
  /\ controlsSection st' = controlsSection st
  /\ next_sid st' = next_sid st
  /\ window st' = window st
  /\ placeholder st' = placeholder st
  /\ timers st' = timers st.
Proof.
  unfold rebind_gameBtn.
  destruct (update_first (has_id "gameBtn") (add_listeners rebound) (before st))
    as [b|] eqn:Eb.
  { cbn. repeat split; try reflexivity.
    - now apply update_first_markup in Eb.
    - destruct (launch st) as [k|s]; [now exists k | reflexivity]. }
  destruct (launch st) as [k|s] eqn:El.
  - destruct (update_first (has_id "gameBtn") (add_listeners rebound) k)
      as [k'|] eqn:Ek.
    { cbn. repeat split; try reflexivity.
      exists k'. split; [reflexivity | now apply update_first_markup in Ek]. }
    destruct (update_first (has_id "gameBtn") (add_listeners rebound) (after st))
      as [a|] eqn:Ea.
    + cbn. repeat split; try reflexivity.
      * now apply update_first_markup in Ea.
      * rewrite El. now exists k.
    + rewrite El. repeat split; try reflexivity. now exists k.
  - destruct (update_first (has_id "gameBtn") (add_listeners rebound) (after st))
      as [a|] eqn:Ea.
    + cbn. repeat split; try reflexivity.
      * now apply update_first_markup in Ea.
      * now rewrite El.
    + rewrite El. repeat split; reflexivity.
Qed.

Lemma restored_markup_idem (cl : closure) :
  innerHTML (restored_markup cl) = restored_markup cl.
Proof. apply innerHTML_idem. Qed.

(** The regions of the document after a confirmed exit. *)
Lemma exit_state_spec (cl : closure) (st : state) :
  let sel := is_loader_script (global_text (EJS_pathtodata (window st))) in
  let st' := exit_state cl st in
  innerHTML (before st') = innerHTML (remove_all sel (before st))
  /\ innerHTML (after st') = innerHTML (remove_all sel (after st))
  /\ (exists k, launch st' = LaunchMenu k
                /\ innerHTML k = restored_markup cl)
  /\ titleLogo st' = option_map (fun _ => restored_logo cl) (titleLogo st)
  /\ next_sid st' = next_sid st
  /\ window st' = window st
  /\ placeholder st' = placeholder st
  /\ timers st' = timers st.
Proof.
  intros sel st'. unfold st', exit_state. cbv zeta.
  assert (H1 : before (remove_loader_scripts st) = remove_all sel (before st)
               /\ after (remove_loader_scripts st) = remove_all sel (after st)
               /\ titleLogo (remove_loader_scripts st) = titleLogo st
               /\ next_sid (remove_loader_scripts st) = next_sid st
               /\ window (remove_loader_scripts st) = window st
               /\ placeholder (remove_loader_scripts st) = placeholder st
               /\ timers (remove_loader_scripts st) = timers st).
  { unfold remove_loader_scripts. fold sel. cbv zeta. simpl_state.
    destruct (launch st); simpl_state; repeat split; reflexivity. }
  generalize dependent (remove_loader_scripts st).
  intros st1 [H1b [H1a [H1l [H1s [H1w [H1p H1t]]]]]].
  destruct (rebind_gameBtn_spec
              (set_titleLogo
                 (option_map (fun _ => restored_logo cl)
                    (titleLogo
                       (set_launch (LaunchMenu (restored_markup cl)) st1)))
                 (set_launch (LaunchMenu (restored_markup cl)) st1)))
    as [Hb [Ha [Hl [Hlogo [_ [Hsid [Hw [Hph Htm]]]]]]]].
  revert Hb Ha Hl Hlogo Hsid Hw Hph Htm. simpl_state.
  intros Hb Ha Hl Hlogo Hsid Hw Hph Htm.
  repeat split.
  - now rewrite Hb, H1b.
  - now rewrite Ha, H1a.
  - destruct Hl as [k [Hk Hk']]. exists k. split; [exact Hk|].
    now rewrite Hk', restored_markup_idem.
  - now rewrite Hlogo, H1l.
  - now rewrite Hsid.
  - now rewrite Hw.
  - now rewrite Hph.
  - now rewrite Htm.
Qed.


(* ================================================================== *)
(** ** Invariants of the reachable states *)

Lemma getElementById_app (i : string) (l1 l2 : list node) :
  getElementById i (l1 ++ l2) =
  match getElementById i l1 with
  | Some n => Some n
  | None => getElementById i l2
  end.
Proof. apply first_some_app. Qed.

Lemma no_game_app (l1 l2 : list node) :
  no_game (l1 ++ l2) <-> no_game l1 /\ no_game l2.
Proof.
  unfold no_game. rewrite getElementById_app.
  destruct (getElementById "game" l1) as [n|].
  - split; [discriminate | intros [H _]; discriminate].
  - split; [intros H; now split | intros [_ H]; exact H].
Qed.

(** While a session container is the content of [#launch], the document
    has a mount point. *)
Lemma game_launch_has_mount (st : state) (s : session) :
  launch st = LaunchGame s ->
  exists n, getElementById "game" (document st) = Some n.
Proof.
  intros E. unfold document. rewrite E, getElementById_app.
  destruct (getElementById "game" (before st)) as [n|]; [now exists n|].
  exists (gameDiv s). reflexivity.
Qed.


Section Invariant.

Variable pg : page.
Local Abbreviation cl := (init_closure pg).
Local Abbreviation st0 := (init_state pg).


Lemma Inv_init : Inv pg st0.
Proof.
  split; [reflexivity|]. cbn. split; [|now left].
  left. apply innerHTML_bind_cards.
Qed.

Lemma no_game_innerHTML (l : list node) : no_game l -> no_game (innerHTML l).
Proof.
  unfold no_game, getElementById. intros H.
  now rewrite (querySelector_innerHTML _ (has_id_shape "game")), H.
Qed.

(** Parsing the saved markup creates no mount point. *)
Lemma no_game_restored (c : closure) :
  no_game (originalLaunchHTML c) -> no_game (restored_markup c).
Proof.
  intros H. apply no_game_innerHTML. now apply reparse_ids.
Qed.

(** The state [openEmulator] leaves when its guard lets it through. *)
Lemma openEmulator_menu_spec (arg : jsval) (st : state) :
  getElementById "game" (document st) = None ->
  let st' := out_state (openEmulator arg st) in
  before st' = before st
  /\ (after st' = after st
      \/ after st' = after st ++ [script_node loader_src (next_sid st)])
  /\ (exists b f, launch st' = LaunchGame (mkSession (next_sid st) b f []))
  /\ next_sid st' = S (next_sid st)
  /\ logo_present (titleLogo st') = logo_present (titleLogo st).
Proof.
  intros G st'. unfold st'. rewrite (openEmulator_menu arg st G).
  assert (L : forall f, logo_present (option_map f (titleLogo st))
                        = logo_present (titleLogo st))
    by (intros f; destruct (titleLogo st); reflexivity).
  destruct (resolve_card arg st) as [rom title| | |];
    cbn [out_state entered half_entered before after launch next_sid
         titleLogo];
    (split; [reflexivity|]);
    (split; [first [now left | now right]|]);
    (split; [now eexists; eexists|]); (split; [reflexivity|]); apply L.
Qed.

Lemma no_game_script (l : list node) (src : string) (sid : nat) :
  no_game l -> no_game (l ++ [script_node src sid]).
Proof. intros H. apply no_game_app. split; [exact H | reflexivity]. Qed.

Lemma Inv_openEmulator (arg : jsval) (st : state) :
  Inv pg st -> Inv pg (out_state (openEmulator arg st)).
Proof.
  intros [Hlogo Hl].
  destruct (getElementById "game" (document st)) as [n|] eqn:G.
  - rewrite (openEmulator_guarded arg st n G). now split.
  - destruct (openEmulator_menu_spec arg st G)
      as [Hb [Ha [[b [f Hs]] [Hn Hp]]]].
    destruct (launch st) as [k|s] eqn:El.
    + destruct Hl as [Hk _].
      unfold document in G. rewrite El in G. cbn [launch_kids] in G.
      apply no_game_app in G. destruct G as [Gb G].
      apply no_game_app in G. destruct G as [Gk Ga].
      split; [congruence|]. rewrite Hs. cbn [s_id].
      split; [now rewrite Hb|]. split.
      * destruct Ha as [-> | ->]; [exact Ga | now apply no_game_script].
      * split; [|rewrite Hn; lia].
        apply no_game_innerHTML in Gk. destruct Hk as [Hk | Hk].
        -- apply no_game_restored. now rewrite <- Hk.
        -- now rewrite <- Hk.
    + destruct (game_launch_has_mount st s El) as [n Hn']. congruence.
Qed.

Lemma Inv_exit (st : state) : Inv pg st -> Inv pg (exit_state cl st).
Proof.
  intros [Hlogo Hl].
  destruct (exit_state_spec cl st) as [_ [_ [[k [Hk Hk']] [Ht _]]]].
  assert (Hopt : option_map (fun _ => restored_logo cl) (titleLogo st)
                 = option_map (fun _ => restored_logo cl)
                     (titleLogo (init_state pg))).
  { clear - Hlogo. revert Hlogo.
    destruct (titleLogo st), (titleLogo (init_state pg)); cbn; intros;
      try discriminate; reflexivity. }
  split.
  - rewrite Ht, Hopt. now destruct (titleLogo (init_state pg)).
  - rewrite Hk. split; [now right|].
    right. now rewrite Ht.
Qed.

Lemma Inv_backBtn_click (b : bool) (st : state) :
  Inv pg st -> Inv pg (out_state (backBtn_click cl b st)).
Proof.
  intros H. destruct b.
  - rewrite backBtn_click_confirmed. now apply Inv_exit.
  - exact H.
Qed.

Lemma Inv_script_onerror (sid : nat) (st : state) :
  Inv pg st -> Inv pg (out_state (script_onerror sid st)).
Proof.
  intros [Hlogo Hl]. unfold script_onerror, bind, modify, emit.
  cbn [out_result out_state out_events]. unfold update_session.
  destruct (launch st) as [k|s] eqn:El.
  - split; [exact Hlogo | now rewrite El].
  - destruct (Nat.eqb (s_id s) sid).
    + split; [exact Hlogo|]. cbn. exact Hl.
    + split; [exact Hlogo | now rewrite El].
Qed.

Lemma Inv_fullBtn_click (g : bool) (st : state) :
  Inv pg st -> Inv pg (out_state (fullBtn_click g st)).
Proof.
  intros H. unfold fullBtn_click, bind, get, modify, emit.
  destruct (fullscreenElement st), g; exact H.
Qed.

Lemma searchBtn_click_frame (value label : string) (st : state) :
  let st' := out_state (searchBtn_click cl value label st) in
  before st' = before st /\ launch st' = launch st /\ after st' = after st
  /\ next_sid st' = next_sid st /\ titleLogo st' = titleLogo st
  /\ window st' = window st.
Proof.
  unfold searchBtn_click, focus_gameBtn, gameBtn_innerText.
  destruct (negb (truthy _)).
  - destruct (gameBtn cl); repeat split; reflexivity.
  - destruct (gameBtn cl); [|repeat split; reflexivity].
    rewrite bind_ret.
    match goal with |- context [if ?c then _ else _] => destruct c end.
    + repeat split; reflexivity.
    + rewrite bind_get, !bind_modify. unfold emit. cbn [out_state].
      simpl_state. repeat split; reflexivity.
Qed.

Lemma Inv_frame (st st' : state) :
  before st' = before st -> launch st' = launch st -> after st' = after st ->
  next_sid st' = next_sid st -> titleLogo st' = titleLogo st ->
  Inv pg st -> Inv pg st'.
Proof.
  intros Hb Hl Ha Hn Ht [H1 H2]. unfold Inv.
  rewrite Hb, Hl, Ha, Hn, Ht. now split.
Qed.

Lemma Inv_searchBtn_click (value label : string) (st : state) :
  Inv pg st -> Inv pg (out_state (searchBtn_click cl value label st)).
Proof.
  destruct (searchBtn_click_frame value label st) as [Hb [Hl [Ha [Hn [Ht _]]]]].
  now apply Inv_frame.
Qed.

Lemma Inv_run_handler (inp : input) (h : handler) (st : state) :
  Inv pg st -> Inv pg (out_state (run_handler cl inp h st)).
Proof.
  intros H. destruct h; cbn [run_handler];
    try destruct (activation_key (in_key inp));
    first [ now apply Inv_openEmulator | now apply Inv_backBtn_click
          | now apply Inv_fullBtn_click | now apply Inv_script_onerror
          | exact H ].
Qed.

Lemma Inv_run_listeners (ev : string) (inp : input) (ls : list listener)
  (st : state) :
  Inv pg st -> Inv pg (re_state (run_listeners cl ev inp ls st)).
Proof.
  revert st. induction ls as [|[ty h] ls IH]; intros st H; cbn.
  - exact H.
  - destruct (String.eqb ty ev); cbn.
    + apply IH. now apply Inv_run_handler.
    + now apply IH.
Qed.

Lemma Inv_step (l : label) (st : state) :
  Inv pg st -> Inv pg (re_state (step cl l st)).
Proof.
  intros H. destruct l as [value label | ev inp path | sid | | e | b];
    cbn [step].
  - now apply Inv_searchBtn_click.
  - unfold dispatch. now apply Inv_run_listeners.
  - destruct (Nat.ltb sid (next_sid st)); [|exact H].
    now apply Inv_script_onerror.
  - cbn. unfold fire_timer. destruct (timers st); [exact H|].
    revert H. now apply Inv_frame.
  - cbn. revert H. now apply Inv_frame.
  - cbn. revert H. now apply Inv_frame.
Qed.

(** Every reachable state satisfies the invariant. *)
Lemma Inv_run (ls : list label) (st : state) :
  Inv pg st -> Inv pg (run cl ls st).
Proof.
  revert st. induction ls as [|l ls IH]; intros st H; cbn; [exact H|].
  apply IH. now apply Inv_step.
Qed.

Lemma Inv_reachable (st : state) : reachable pg st -> Inv pg st.
Proof. intros [ls ->]. apply Inv_run, Inv_init. Qed.

End Invariant.

(* ================================================================== *)
(** ** Round trip: menu, session, menu *)

Lemma run_app (cl : closure) (l1 l2 : list label) (st : state) :
  run cl (l1 ++ l2) st = run cl l2 (run cl l1 st).
Proof.
  revert st. induction l1 as [|l l1 IH]; intros st; cbn; [reflexivity|].
  apply IH.
Qed.


Lemma drop_empty_idem (a : option string) :
  drop_empty (drop_empty a) = drop_empty a.
Proof. destruct a as [[|c s]|]; reflexivity. Qed.

Lemma restored_logo_init (pg : page) (a : option string) :
  pg_logo pg = Some a ->
  restored_logo (init_closure pg) = mkInline (drop_empty a).
Proof.
  intros E. unfold restored_logo, init_closure. cbn [originalLogoStyle].
  rewrite E. destruct a as [[|c s]|]; reflexivity.
Qed.

(** C1, as amended.  Take any history that ends with the menu showing
    (the state before entry), any further history from there (entering,
    and whatever happens in the session), and then a confirmed exit.  The
    content of [#launch] after the exit is what the parser makes of the
    markup saved at initialisation, the same after every exit.  Before
    entry the menu had the markup of the loaded page or already this
    restored markup; in the second case, and in the first whenever the
    loaded markup comes back unchanged from its trip through [innerHTML],
    the markup after the exit is the markup before entry.  The logo
    carries the [style] attribute it had before entry, which is the one of
    the loaded page, except that an attribute that was empty is absent. *)
Theorem roundtrip_restores_snapshot (pg : page) (ls1 ls2 : list label) :
  let cl := init_closure pg in
  let st_before := run cl ls1 (init_state pg) in
  let st_after := out_state (backBtn_click cl true (run cl ls2 st_before)) in
  match launch st_before with
  | LaunchMenu k0 =>
      (exists k, launch st_after = LaunchMenu k
                 /\ innerHTML k = restored_markup cl
                 /\ (innerHTML k0 = innerHTML (pg_launch pg)
                     \/ innerHTML k = innerHTML k0)
                 /\ (restored_markup cl = innerHTML (pg_launch pg) ->
                     innerHTML k = innerHTML k0))
      /\ titleLogo st_after
         = option_map (fun l => mkInline (drop_empty (attr_text l)))
             (titleLogo st_before)
      /\ titleLogo st_after
         = option_map (fun a => mkInline (drop_empty a)) (pg_logo pg)
  | LaunchGame _ => True
  end.
Proof.
  intros cl st_before st_after. subst cl.
  assert (I1 : Inv pg st_before) by apply Inv_run, Inv_init.
  destruct (launch st_before) as [k0|s] eqn:El; [|exact I].
  destruct I1 as [Hp Hm]. rewrite El in Hm. destruct Hm as [Hk0 Hlogo].
  unfold st_after. rewrite backBtn_click_confirmed. cbn [out_state].
  assert (I2 : Inv pg (run (init_closure pg) ls2 st_before)) by
    (unfold st_before; rewrite <- run_app; apply Inv_run, Inv_init).
  destruct (exit_state_spec (init_closure pg) (run (init_closure pg) ls2 st_before))
    as [_ [_ [[k [Hk Hk']] [Ht _]]]].
  destruct I2 as [Hp2 _].
  cbn [init_closure originalLaunchHTML] in Hk0.
  split.
  - exists k. split; [exact Hk|]. split; [exact Hk'|]. split.
    + destruct Hk0 as [Hk0 | Hk0]; [now left | right; congruence].
    + intros Hrt. destruct Hk0 as [Hk0 | Hk0]; congruence.
  - rewrite Ht. cbn [titleLogo init_state] in Hp, Hp2, Hlogo.
    destruct (pg_logo pg) as [a|] eqn:Ea; cbn [option_map] in *.
    + rewrite (restored_logo_init pg a Ea) in *.
      destruct (titleLogo (run (init_closure pg) ls2 st_before)); [|discriminate].
      destruct Hlogo as [-> | ->]; cbn; rewrite ?drop_empty_idem;
        repeat split; reflexivity.
    + destruct (titleLogo (run (init_closure pg) ls2 st_before)); [discriminate|].
      destruct Hlogo as [-> | ->]; repeat split; reflexivity.
Qed.

(* ================================================================== *)
(** ** Failure of the loader script *)

(** One listener of the right type: the reaction is that of its handler. *)
Lemma run_listeners_one (cl : closure) (ev : string) (inp : input)
  (h : handler) (st : state) :
  run_listeners cl ev inp [(ev, h)] st
  = mkReaction (out_state (run_handler cl inp h st))
      (out_events (run_handler cl inp h st) ++ [])
      (match out_result (run_handler cl inp h st) with
       | Normal _ => []
       | Abrupt e => [e]
       end).
Proof. cbn [run_listeners]. now rewrite String.eqb_refl. Qed.

(** C4, as amended.  While the menu shows, an activation of a game card
    through the listeners bound to it at load (a click, or a key press
    with Space or Enter) writes the loader's globals and only then appends
    the loader script: the emitted events are the eight writes followed by
    the append, in this order, and nothing is thrown.  The globals hold
    that card's resource locator and title (the built-in defaults stand in
    for a missing or empty attribute), core "gba", autostart [true] and
    both storage switches [true]; the script appended last is the loader
    of the data path.  An activation through the key listener bound again
    after an exit configures, in the same way, the first game card of the
    document, whichever element was activated. *)
Theorem activation_configures_before_load
  (cl : closure) (n : node) (ev : string) (inp : input) (st : state) :
  sessionState st = Menu ->
  ev = "click" \/ (ev = "keypress" /\ activation_key (in_key inp) = true) ->
  let rom := node_attr "data-rom" n in
  let title := node_attr "data-title" n in
  let re := run_listeners cl ev inp (card_listeners n) st in
  re_uncaught re = []
  /\ re_events re =
       [EvSetGlobal "EJS_player" (PStr "#game");
        EvSetGlobal "EJS_gameUrl" (PStr (or_default rom default_romPath));
        EvSetGlobal "EJS_gameName" (PStr (or_default title default_gameTitle));
        EvSetGlobal "EJS_core" (PStr "gba");
        EvSetGlobal "EJS_pathtodata" (PStr pathtodata);
        EvSetGlobal "EJS_startOnLoaded" (PBool true);
        EvSetGlobal "EJS_disableDatabases" (PBool true);
        EvSetGlobal "EJS_disableLocalStorage" (PBool true);
        EvAppendScript loader_src]
  /\ window (re_state re) = configured rom title (window st)
  /\ after (re_state re) = after st ++ [script_node loader_src (next_sid st)]
  /\ (forall u, rom = Some u -> u <> "" ->
        EJS_gameUrl (window (re_state re)) = Some u)
  /\ (forall t, title = Some t -> t <> "" ->
        EJS_gameName (window (re_state re)) = Some t)
  /\ (forall m, querySelector is_rom_card (document st) = Some m ->
        activation_key (in_key inp) = true ->
        run_listeners cl "keypress" inp [("keypress", HRebindKey)] st
        = mkReaction
            (entered (node_attr "data-rom" m) (node_attr "data-title" m) st)
            (activation_events (node_attr "data-rom" m)
               (node_attr "data-title" m))
            []).
Proof.
  intros H Hev rom title re. apply sessionState_Menu in H.
  assert (E : re = mkReaction (entered rom title st)
                     (activation_events rom title) []).
  { unfold re, card_listeners. fold rom title.
    destruct Hev as [-> | [-> Hk]]; cbn [run_listeners].
    - change (String.eqb "keypress" "click") with false.
      rewrite String.eqb_refl. cbn [run_handler].
      rewrite (openEmulator_menu _ st H).
      cbn [resolve_card js_not out_result out_events out_state re_state
           re_events re_uncaught].
      now rewrite app_nil_r.
    - change (String.eqb "click" "keypress") with false.
      rewrite String.eqb_refl. cbn [run_handler]. rewrite Hk.
      rewrite (openEmulator_menu _ st H).
      cbn [resolve_card js_not out_result out_events out_state re_state
           re_events re_uncaught].
      now rewrite app_nil_r. }
  rewrite E.
  cbn [re_uncaught re_events re_state entered window after configured
       EJS_gameUrl EJS_gameName].
  split; [reflexivity|]. split; [reflexivity|]. split; [reflexivity|].
  split; [reflexivity|]. split; [|split].
  - intros u Hu Hne. rewrite Hu. destruct u; [congruence | reflexivity].
  - intros t Ht Hne. rewrite Ht. destruct t; [congruence | reflexivity].
  - intros m Hm Hk. rewrite run_listeners_one. cbn [run_handler].
    rewrite Hk, (openEmulator_menu _ st H).
    unfold resolve_card, querySelector_card. cbn [js_not]. rewrite Hm.
    unfold card_of. cbn [out_result out_events out_state].
    now rewrite app_nil_r.
Qed.



Lemma node_at_backBtn (st : state) (s : session) :
  launch st = LaunchGame s ->
  node_at (backBtn_path st) (document st) = Some (backBtn s).
Proof.
  intros E. unfold backBtn_path, document. rewrite E. cbn [launch_kids node_at].
  rewrite nth_error_app2 by lia. rewrite Nat.sub_diag. reflexivity.
Qed.


(** A click on the exit control reaches its listeners only: the elements
    around it inside the container carry none. *)
Lemma listeners_along_backBtn (st : state) (s : session) :
  launch st = LaunchGame s ->
  listeners_along (backBtn_path st) (document st) = s_back s.
Proof.
  intros E. unfold listeners_along, backBtn_path, document. rewrite E.
  cbn [launch_kids nodes_along].
  rewrite nth_error_app2 by lia. rewrite Nat.sub_diag. cbn.
  now rewrite app_nil_r.
Qed.

(** C9 (the code at the failing input).  A session container whose exit
    control has no listener is what the click listener bound at line 84
    leaves when [openEmulator] throws at line 163.  In such an [InGame]
    state the exit control is in the document, and a click on it shows no
    prompt and changes nothing: no event is emitted at all.  (Where the
    control carries its listener, [declined_exit_changes_nothing] gives
    the prompt and the unchanged state.) *)
Theorem unbound_exit_shows_no_prompt
  (cl : closure) (inp : input) (st : state) (s : session) :
  launch st = LaunchGame s ->
  s_back s = [] ->
  sessionState st = InGame
  /\ node_at (backBtn_path st) (document st) = Some (backBtn s)
  /\ dispatch cl "click" inp (backBtn_path st) st = mkReaction st [] [].
Proof.
  intros El Hs. split; [|split].
  - apply sessionState_InGame. exact (game_launch_has_mount st s El).
  - now apply node_at_backBtn.
  - unfold dispatch. now rewrite (listeners_along_backBtn st s El), Hs.
Qed.


(* ================================================================== *)
(** ** The listeners bound again after an exit *)


(** [openEmulator] called with an event object while the menu shows: the
    event is truthy, so no card is looked up; the presentation is changed
    and [#launch] replaced, and then reading [dataset.rom] throws.  No
    global is written, no script appended, and the two controls of the new
    container never receive their listeners. *)
Lemma openEmulator_event (st : state) :
  getElementById "game" (document st) = None ->
  let r := openEmulator JEvent st in
  out_result r = Abrupt event_has_no_dataset
  /\ out_events r = []
  /\ launch (out_state r) = LaunchGame (mkSession (next_sid st) [] [] [])
  /\ window (out_state r) = window st
  /\ after (out_state r) = after st.
Proof.
  intros G r. unfold r. rewrite (openEmulator_menu JEvent st G).
  repeat split; reflexivity.
Qed.

(** C7 (the code at the failing input).  Whenever the menu shows, a click
    handled by the listener that [restoreMenuUIState] binds lets a
    [TypeError] escape: the browser reports it as uncaught, and the
    session container that was already put in place has no listener on
    its exit control. *)
Theorem rebound_click_throws (cl : closure) (inp : input) (st : state) :
  sessionState st = Menu ->
  let re := run_listeners cl "click" inp [("click", HRebindClick)] st in
  re_uncaught re = [event_has_no_dataset]
  /\ sessionState (re_state re) = InGame
  /\ exists s, launch (re_state re) = LaunchGame s /\ s_back s = [].
Proof.
  intros H re. apply sessionState_Menu in H.
  destruct (openEmulator_event st H) as [Hr [_ [Hl _]]].
  assert (E : re = mkReaction (out_state (openEmulator JEvent st))
                     (out_events (openEmulator JEvent st) ++ [])
                     [event_has_no_dataset]).
  { unfold re. rewrite run_listeners_one. cbn [run_handler].
    now rewrite Hr. }
  rewrite E. cbn [re_uncaught re_state]. split; [reflexivity|]. split.
  - apply sessionState_InGame.
    exact (game_launch_has_mount _ _ Hl).
  - eexists. split; [exact Hl | reflexivity].
Qed.

(* ================================================================== *)
(** ** More on search: normalisation of the query, timers *)

(** X3.  On a page without [#gameBtn] every search throws a [TypeError]
    (the handler dereferences the missing button) and leaves the page as
    it was: no message, no timer, no event. *)
Theorem search_without_gameBtn_throws
  (pg : page) (value label : string) (st : state) :
  getElementById "gameBtn" (pg_before pg ++ pg_launch pg ++ pg_after pg) = None ->
  exists msg,
    searchBtn_click (init_closure pg) value label st
    = mkOut st [] (Abrupt (TypeError msg)).
Proof.
  intros H. unfold searchBtn_click, focus_gameBtn, gameBtn_innerText.
  cbn [gameBtn init_closure]. rewrite H.
  destruct (negb (truthy _)); eexists; reflexivity.
Qed.

(** The outcome of a search, whatever the page. *)
Lemma searchBtn_click_cases (cl : closure) (value label : string) (st : state) :
  (exists ev r, searchBtn_click cl value label st = mkOut st ev r)
  \/ searchBtn_click cl value label st
     = mkOut (show_not_found st) [EvSetTimeout 1000] (Normal tt).
Proof.
  unfold searchBtn_click, focus_gameBtn, gameBtn_innerText.
  destruct (negb (truthy _)).
  - left. destruct (gameBtn cl); eexists; eexists; reflexivity.
  - destruct (gameBtn cl); [|left; eexists; eexists; reflexivity].
    rewrite bind_ret.
    match goal with |- context [if ?c then _ else _] => destruct c end.
    + left. eexists; eexists; reflexivity.
    + right. rewrite bind_get, !bind_modify. reflexivity.
Qed.

(** X4.  A search touches nothing but the placeholder of the input and
    the list of pending timers: document, session, loader globals, logo,
    controls and fullscreen state are the ones before, and at most one
    timer is added. *)
Theorem search_touches_placeholder_only
  (cl : closure) (value label : string) (st : state) :
  let st' := out_state (searchBtn_click cl value label st) in
  st' = set_timers (timers st') (set_placeholder (placeholder st') st)
  /\ document st' = document st
  /\ sessionState st' = sessionState st
  /\ (timers st' = timers st \/ exists ph, timers st' = timers st ++ [ph]).
Proof.
  intros st'. unfold st'.
  destruct (searchBtn_click_cases cl value label st) as [[ev [r ->]] | ->];
    cbn [out_state]; destruct st; cbn; repeat split; try reflexivity.
  - now left.
  - right. eexists. reflexivity.
Qed.

Lemma last_cons_default {A : Type} (l : list A) (a d d' : A) :
  last (a :: l) d = last (a :: l) d'.
Proof.
  revert a. induction l as [|b l IH]; intros a; [reflexivity|].
  change (last (b :: l) d = last (b :: l) d'). apply IH.
Qed.

Lemma flush_iter (n : nat) :
  forall st, length (timers st) = n ->
  Nat.iter n fire_timer st
  = set_timers [] (set_placeholder (last (timers st) (placeholder st)) st).
Proof.
  induction n as [|n IH]; intros st Hn.
  - destruct st as [bc b l a ns tl cs ph tm w fs]. cbn in *.
    destruct tm; [reflexivity | discriminate].
  - rewrite Nat.iter_succ_r.
    destruct st as [bc b l a ns tl cs ph tm w fs]. cbn in Hn.
    destruct tm as [|t tm]; [discriminate|].
    unfold fire_timer at 2. cbn [timers set_timers set_placeholder].
    rewrite IH by (cbn in *; lia).
    cbn [timers placeholder set_timers set_placeholder].
    replace (last (t :: tm) ph) with (last tm t); [reflexivity|].
    destruct tm as [|x tm]; [reflexivity|].
    change (last (t :: x :: tm) ph) with (last (x :: tm) ph).
    apply last_cons_default.
Qed.

(** X5.  When every pending timer has fired, none is left and the
    placeholder is the text saved by the timer set last (the placeholder
    is untouched when none was pending); nothing else changes. *)
Theorem flush_timers_last_wins (st : state) :
  flush_timers st
  = set_timers [] (set_placeholder (last (timers st) (placeholder st)) st)
  /\ timers (flush_timers st) = []
  /\ placeholder (flush_timers st) = last (timers st) (placeholder st).
Proof.
  assert (E : flush_timers st
              = set_timers []
                  (set_placeholder (last (timers st) (placeholder st)) st))
    by (apply flush_iter; reflexivity).
  rewrite E. repeat split.
Qed.

Lemma last_repeat {A : Type} (x : A) (n : nat) (d : A) :
  last (repeat x (S n)) d = x.
Proof.
  induction n as [|n IH]; [reflexivity|].
  change (last (repeat x (S n)) d = x). exact IH.
Qed.

(** The searches of a list of queries, one after the other. *)
Lemma misses_state (cl : closure) (btn : node) (label : string) :
  gameBtn cl = Some btn ->
  forall vs st,
    Forall (fun v => search_contract v label = NotFound) vs ->
    vs <> [] ->
    run cl (map (fun v => LSearch v label) vs) st
    = set_timers
        (timers st ++ placeholder st
           :: repeat not_found_text (length vs - 1))
        (set_placeholder not_found_text st).
Proof.
  intros Hbtn vs. induction vs as [|v vs IH]; intros st Hall Hne;
    [congruence|].
  inversion Hall as [|v' vs' Hv Hvs]; subst.
  cbn [map run step react re_state].
  rewrite (searchBtn_click_spec cl btn v label st Hbtn), Hv. cbn [out_state].
  destruct vs as [|v2 vs].
  - cbn. reflexivity.
  - rewrite IH by (try assumption; discriminate).
    destruct st as [bc b l a ns tl cs ph tm w fs]. cbn.
    rewrite Nat.sub_0_r, <- app_assoc. reflexivity.
Qed.

(** X6.  The limitation of the revert timer, in general: after two or
    more searches in a row that find nothing, issued before any timer
    fires, the placeholder stays "No encontrado" once all timers have
    fired; after exactly one it is the original placeholder again.
    ([label]: the rendered text of the game button during the searches.) *)
Theorem repeated_misses_leave_the_message
  (cl : closure) (btn : node) (vs : list string) (label : string)
  (st : state) :
  gameBtn cl = Some btn ->
  timers st = [] ->
  Forall (fun v => search_contract v label = NotFound) vs ->
  vs <> [] ->
  placeholder
    (flush_timers (run cl (map (fun v => LSearch v label) vs) st))
  = match vs with
    | [_] => placeholder st
    | _ => not_found_text
    end.
Proof.
  intros Hbtn Ht Hall Hne.
  unfold flush_timers. rewrite flush_iter by reflexivity.
  cbn [placeholder set_timers set_placeholder].
  rewrite (misses_state cl btn label Hbtn vs st Hall Hne).
  cbn [timers placeholder set_timers set_placeholder]. rewrite Ht.
  destruct vs as [|v1 [|v2 vs]]; [congruence | reflexivity |].
  cbn [length Nat.sub app]. rewrite ?Nat.sub_0_r.
  change (last (repeat not_found_text (S (length vs))) not_found_text
          = not_found_text).
  apply last_repeat.
Qed.

(* ================================================================== *)
(** ** More on activation *)


(** X8.  [openEmulator()] called without a card: when the document has a
    game card it behaves exactly as [openEmulator(card)] for the first one
    in document order. *)
Theorem openEmulator_falls_back_to_first_card (n : node) (st : state) :
  querySelector is_rom_card (document st) = Some n ->
  openEmulator JUndefined st = openEmulator (card_of n) st.
Proof.
  intros H. destruct (getElementById "game" (document st)) as [g|] eqn:G.
  - now rewrite !(openEmulator_guarded _ st g G).
  - rewrite !(openEmulator_menu _ st G). unfold resolve_card, querySelector_card.
    cbn [js_not card_of]. now rewrite H.
Qed.

(** X9.  [openEmulator()] called without a card while the menu shows and
    the document has no game card: the presentation is made compact and
    [#launch] replaced by a container without listeners, then a
    [TypeError] is thrown; nothing is configured and no script is
    appended. *)
Theorem openEmulator_without_card_throws (st : state) :
  sessionState st = Menu ->
  querySelector is_rom_card (document st) = None ->
  openEmulator JUndefined st
  = mkOut (half_entered st) [] (Abrupt null_has_no_dataset).
Proof.
  intros H C. apply sessionState_Menu in H.
  rewrite (openEmulator_menu _ st H). unfold resolve_card, querySelector_card.
  cbn [js_not]. now rewrite C.
Qed.

(** X10.  A card without [data-rom] (or with an empty one) is started
    with the built-in path, and a card without [data-title] (or with an
    empty one) with the name "Pokemon". *)
Theorem missing_attributes_use_defaults
  (rom title : option string) (st : state) :
  sessionState st = Menu ->
  let w := window (out_state (openEmulator (JCard rom title) st)) in
  (rom = None \/ rom = Some "" -> EJS_gameUrl w = Some default_romPath)
  /\ (title = None \/ title = Some "" -> EJS_gameName w = Some default_gameTitle).
Proof.
  intros H w. apply sessionState_Menu in H. unfold w.
  rewrite (openEmulator_menu _ st H).
  cbn [resolve_card js_not out_state entered window configured EJS_gameUrl
       EJS_gameName].
  split; intros [-> | ->]; reflexivity.
Qed.

(* ================================================================== *)
(** ** The fullscreen control, the compact presentation *)

Lemma set_fullscreenElement_same (st : state) :
  set_fullscreenElement (fullscreenElement st) st = st.
Proof. now destruct st. Qed.

(** X11.  The fullscreen control never throws and never touches the
    document, the session or anything but the fullscreen flag: it asks to
    enter fullscreen when nothing is fullscreen and to leave it otherwise;
    a granted request flips the flag, a refused one is logged and changes
    nothing; two granted clicks in a row restore the state. *)
Theorem fullscreen_toggle (granted : bool) (st : state) :
  let r := fullBtn_click granted st in
  out_result r = Normal tt
  /\ out_events r
     = (if fullscreenElement st then EvExitFullscreen else EvRequestFullscreen)
       :: (if granted then [] else [EvConsoleWarn "Fullscreen failed:"])
  /\ out_state r
     = set_fullscreenElement
         (if granted then negb (fullscreenElement st) else fullscreenElement st)
         st
  /\ document (out_state r) = document st
  /\ sessionState (out_state r) = sessionState st
  /\ out_state (fullBtn_click true (out_state (fullBtn_click true st))) = st.
Proof.
  intros r. unfold r, fullBtn_click. rewrite !bind_get.
  destruct st as [bc b l a ns tl cs ph tm w fs].
  destruct fs, granted; cbn; repeat split; reflexivity.
Qed.

Lemma get_attr_set_prop_same (k v : string) (s : style) :
  get_attr k (set_prop k v s) = Some v.
Proof.
  induction s as [|[k' v'] s IH]; cbn.
  - now rewrite String.eqb_refl.
  - destruct (String.eqb k' k) eqn:E; cbn.
    + now rewrite String.eqb_refl.
    + now rewrite E.
Qed.

Lemma get_attr_set_prop_other (k k0 v : string) (s : style) :
  k0 <> k -> get_attr k0 (set_prop k v s) = get_attr k0 s.
Proof.
  intros Hk. induction s as [|[k' v'] s IH]; cbn.
  - destruct (String.eqb k k0) eqn:E; [|reflexivity].
    apply String.eqb_eq in E. congruence.
  - destruct (String.eqb k' k) eqn:E; cbn.
    + apply String.eqb_eq in E. subst k'.
      destruct (String.eqb k k0) eqn:E0; [|reflexivity].
      apply String.eqb_eq in E0. congruence.
    + now rewrite IH.
Qed.

Lemma remove_prop_set_prop (k v : string) (s : style) :
  remove_prop k (set_prop k v s) = remove_prop k s.
Proof.
  unfold remove_prop. induction s as [|[k' v'] s IH]; cbn.
  - now rewrite String.eqb_refl.
  - destruct (String.eqb k' k) eqn:E; cbn.
    + now rewrite String.eqb_refl.
    + now rewrite ?E, IH.
Qed.

Lemma remove_prop_absent (k : string) (s : style) :
  get_attr k s = None -> remove_prop k s = s.
Proof.
  unfold remove_prop. induction s as [|[k' v'] s IH]; cbn; [reflexivity|].
  destruct (String.eqb k' k); [discriminate|]. intros H. cbn.
  now rewrite IH.
Qed.

Lemma get_attr_remove_prop (k : string) (s : style) :
  get_attr k (remove_prop k s) = None.
Proof.
  unfold remove_prop. induction s as [|[k' v'] s IH]; cbn; [reflexivity|].
  destruct (String.eqb k' k) eqn:E; cbn; [exact IH|]. now rewrite E.
Qed.

Lemma exit_state_controls (cl : closure) (st : state) :
  controlsSection (exit_state cl st)
  = option_map (style_set "display" "") (controlsSection st).
Proof.
  unfold exit_state. cbv zeta. simpl_state.
  match goal with
  | |- option_map _ (controlsSection (rebind_gameBtn ?s)) = _ =>
      destruct (rebind_gameBtn_spec s) as [_ [_ [_ [_ [Hc _]]]]]; rewrite Hc
  end.
  simpl_state. unfold remove_loader_scripts. cbv zeta. simpl_state.
  destruct (launch st); reflexivity.
Qed.

(** X12.  The controls after a session: entering hides them with an
    inline [display: none] and a confirmed exit clears the inline
    [display]; the other inline declarations are kept, but an inline
    [display] the page had set itself is not put back.  When the page set
    none, the controls are exactly as before. *)
Theorem controls_display_after_cycle
  (cl : closure) (rom title : option string) (st : state) :
  sessionState st = Menu ->
  let st1 := out_state (openEmulator (JCard rom title) st) in
  let st2 := out_state (backBtn_click cl true st1) in
  option_map (get_attr "display") (controlsSection st1)
  = option_map (fun _ => Some "none") (controlsSection st)
  /\ controlsSection st2
     = option_map (remove_prop "display") (controlsSection st)
  /\ option_map (get_attr "display") (controlsSection st2)
     = option_map (fun _ => None) (controlsSection st)
  /\ (forall s, controlsSection st = Some s -> get_attr "display" s = None ->
      controlsSection st2 = Some s).
Proof.
  intros H st1 st2. apply sessionState_Menu in H.
  assert (E1 : st1 = entered rom title st)
    by (unfold st1; now rewrite (openEmulator_menu _ st H)).
  assert (E2 : controlsSection st2
               = option_map (remove_prop "display") (controlsSection st)).
  { unfold st2. rewrite backBtn_click_confirmed. cbn [out_state].
    rewrite exit_state_controls, E1. cbn [entered controlsSection].
    destruct (controlsSection st) as [s|]; [|reflexivity].
    cbn [option_map]. unfold style_set. cbn [truthy].
    now rewrite remove_prop_set_prop. }
  rewrite E2, E1. cbn [entered controlsSection].
  destruct (controlsSection st) as [s|]; cbn [option_map].
  - repeat split.
    + unfold style_set. cbn [truthy]. now rewrite get_attr_set_prop_same.
    + now rewrite get_attr_remove_prop.
    + intros s0 Hs Hd. injection Hs as <-. now rewrite remove_prop_absent.
  - repeat split. intros s0 Hs. discriminate.
Qed.

(* ================================================================== *)
(** ** Sessions one after the other *)

Lemma eqb_succ_false (n : nat) : Nat.eqb (S n) n = false.
Proof. apply Nat.eqb_neq. lia. Qed.

Lemma script_onerror_menu (sid : nat) (st : state) (k : list node) :
  launch st = LaunchMenu k ->
  script_onerror sid st
  = mkOut st [EvConsoleError "Failed to load loader.js from"] (Normal tt).
Proof.
  intros E. unfold script_onerror. rewrite bind_modify. unfold emit.
  unfold update_session. now rewrite E.
Qed.

Lemma script_onerror_other (sid : nat) (st : state) (s : session) :
  launch st = LaunchGame s -> Nat.eqb (s_id s) sid = false ->
  script_onerror sid st
  = mkOut st [EvConsoleError "Failed to load loader.js from"] (Normal tt).
Proof.
  intros E N. unfold script_onerror. rewrite bind_modify. unfold emit.
  unfold update_session. now rewrite E, N.
Qed.

(** X14.  The error handler of a loader script writes into the mount
    element of its own session only.  Once that session has been left, a
    late failure of its script is logged but shows nowhere: neither in the
    restored menu nor in the mount of whatever session is started next. *)
Theorem late_load_error_is_invisible
  (cl : closure) (rom title : option string) (arg : jsval) (st : state) :
  sessionState st = Menu ->
  let sid := next_sid st in
  let st1 := out_state (openEmulator (JCard rom title) st) in
  let st2 := out_state (backBtn_click cl true st1) in
  let st3 := out_state (openEmulator arg st2) in
  script_onerror sid st2
  = mkOut st2 [EvConsoleError "Failed to load loader.js from"] (Normal tt)
  /\ script_onerror sid st3
     = mkOut st3 [EvConsoleError "Failed to load loader.js from"] (Normal tt).
Proof.
  intros H sid st1 st2 st3. apply sessionState_Menu in H.
  assert (E1 : st1 = entered rom title st)
    by (unfold st1; now rewrite (openEmulator_menu _ st H)).
  assert (E2 : st2 = exit_state cl st1)
    by (unfold st2; now rewrite backBtn_click_confirmed).
  destruct (exit_state_spec cl st1) as [_ [_ [[k [Hk _]] [_ [Hn _]]]]].
  rewrite <- E2 in Hk, Hn.
  assert (Hn2 : next_sid st2 = S sid) by (rewrite Hn, E1; reflexivity).
  split; [exact (script_onerror_menu sid st2 k Hk)|].
  unfold st3.
  destruct (getElementById "game" (document st2)) as [g|] eqn:G.
  - rewrite (openEmulator_guarded arg st2 g G). cbn [out_state].
    exact (script_onerror_menu sid st2 k Hk).
  - rewrite (openEmulator_menu arg st2 G).
    destruct (resolve_card arg st2); cbn [out_state];
      (eapply script_onerror_other; [reflexivity|]);
      cbn [s_id]; rewrite Hn2; apply eqb_succ_false.
Qed.

Lemma drop_map_app {A : Type} (p : A -> bool) (f : A -> A) (l1 l2 : list A) :
  drop_map p f (l1 ++ l2) = drop_map p f l1 ++ drop_map p f l2.
Proof.
  induction l1 as [|x l1 IH]; cbn; [reflexivity|].
  destruct (p x); [exact IH | now rewrite IH].
Qed.

Lemma prune_no_match (q : node -> bool) (n : node) :
  find_node q n = None -> prune q n = n.
Proof.
  induction n as [s | t a css ls kids IH] using node_forall_ind;
    [reflexivity|].
  cbn [find_node prune]. destruct (q (Elem t a css ls kids)); [discriminate|].
  intros H. f_equal.
  induction IH as [|x l Hx _ IHl]; [reflexivity|].
  cbn in H |- *. destruct (find_node q x) eqn:Ex; [discriminate|].
  assert (Hq : q x = false).
  { destruct x; cbn in Ex; destruct (q _); congruence. }
  now rewrite Hq, (Hx eq_refl), (IHl H).
Qed.

Lemma remove_all_no_match (q : node -> bool) (l : list node) :
  querySelector q l = None -> remove_all q l = l.
Proof.
  unfold querySelector, remove_all.
  induction l as [|x l IH]; [reflexivity|].
  cbn. destruct (find_node q x) eqn:Ex; [discriminate|]. intros H.
  assert (Hq : q x = false).
  { destruct x; cbn in Ex; destruct (q _); congruence. }
  now rewrite Hq, (prune_no_match q x Ex), (IH H).
Qed.

Lemma querySelector_app (p : node -> bool) (l1 l2 : list node) :
  querySelector p (l1 ++ l2) =
  match querySelector p l1 with
  | Some n => Some n
  | None => querySelector p l2
  end.
Proof. apply first_some_app. Qed.

(** X15.  The loader script does not pile up: a session followed by a
    confirmed exit leaves, around [#launch], the markup that was there
    before with every loader script removed; so on a page that had no
    loader script of its own that markup is exactly the one before the
    session. *)
Theorem cycle_leaves_no_script
  (cl : closure) (rom title : option string) (st : state) :
  sessionState st = Menu ->
  let sel := is_loader_script pathtodata in
  let st1 := out_state (openEmulator (JCard rom title) st) in
  let st2 := out_state (backBtn_click cl true st1) in
  after st1 = after st ++ [script_node loader_src (next_sid st)]
  /\ innerHTML (before st2) = innerHTML (remove_all sel (before st))
  /\ innerHTML (after st2) = innerHTML (remove_all sel (after st))
  /\ (querySelector sel (before st ++ after st) = None ->
      innerHTML (before st2) = innerHTML (before st)
      /\ innerHTML (after st2) = innerHTML (after st)).
Proof.
  intros H sel st1 st2. apply sessionState_Menu in H.
  assert (E1 : st1 = entered rom title st)
    by (unfold st1; now rewrite (openEmulator_menu _ st H)).
  assert (E2 : st2 = exit_state cl st1)
    by (unfold st2; now rewrite backBtn_click_confirmed).
  destruct (exit_state_spec cl st1) as [Hb [Ha _]].
  rewrite <- E2 in Hb, Ha. rewrite E1 in Hb, Ha.
  cbn [entered window configured EJS_pathtodata global_text before after]
    in Hb, Ha.
  fold sel in Hb, Ha.
  assert (Ha' : innerHTML (after st2) = innerHTML (remove_all sel (after st))).
  { rewrite Ha. unfold remove_all. rewrite drop_map_app. cbn.
    now rewrite app_nil_r. }
  split; [now rewrite E1|]. split; [exact Hb|]. split; [exact Ha'|].
  intros N. rewrite querySelector_app in N.
  destruct (querySelector sel (before st)) eqn:Nb; [discriminate|].
  rewrite Hb, Ha', (remove_all_no_match sel _ Nb), (remove_all_no_match sel _ N).
  now split.
Qed.

(* ================================================================== *)
(** ** Facts that hold in every reachable state *)

Lemma rebind_body_classes (st : state) :
  body_classes (rebind_gameBtn st) = body_classes st.
Proof.
  unfold rebind_gameBtn.
  destruct (update_first _ _ (before st)); [reflexivity|].
  destruct (launch st) as [k|s].
  - destruct (update_first _ _ k); [reflexivity|].
    destruct (update_first _ _ (after st)); reflexivity.
  - destruct (update_first _ _ (after st)); reflexivity.
Qed.

Lemma exit_state_body_classes (cl : closure) (st : state) :
  body_classes (exit_state cl st) = body_classes st.
Proof.
  unfold exit_state. cbv zeta. simpl_state. rewrite rebind_body_classes.
  simpl_state. unfold remove_loader_scripts. cbv zeta. simpl_state.
  destruct (launch st); reflexivity.
Qed.

Lemma script_onerror_frame (sid : nat) (st : state) :
  let st' := out_state (script_onerror sid st) in
  body_classes st' = body_classes st /\ before st' = before st
  /\ after st' = after st.
Proof.
  unfold script_onerror. rewrite bind_modify. unfold emit, update_session.
  cbn [out_state]. destruct (launch st) as [k|s]; [now repeat split|].
  destruct (Nat.eqb (s_id s) sid); now repeat split.
Qed.

Lemma fullBtn_click_frame (g : bool) (st : state) :
  let st' := out_state (fullBtn_click g st) in
  body_classes st' = body_classes st /\ before st' = before st
  /\ after st' = after st.
Proof.
  unfold fullBtn_click. rewrite bind_get.
  destruct (fullscreenElement st), g; now repeat split.
Qed.

Lemma search_frame (cl : closure) (value label : string) (st : state) :
  let st' := out_state (searchBtn_click cl value label st) in
  body_classes st' = body_classes st /\ before st' = before st
  /\ after st' = after st.
Proof.
  destruct (searchBtn_click_cases cl value label st) as [[ev [r ->]] | ->];
    now repeat split.
Qed.

Lemma openEmulator_body_classes (arg : jsval) (st : state) :
  body_classes (out_state (openEmulator arg st)) = body_classes st.
Proof.
  destruct (getElementById "game" (document st)) as [g|] eqn:G.
  - now rewrite (openEmulator_guarded arg st g G).
  - rewrite (openEmulator_menu arg st G).
    destruct (resolve_card arg st); reflexivity.
Qed.

Lemma run_handler_body_classes (cl : closure) (inp : input) (h : handler)
  (st : state) :
  body_classes (out_state (run_handler cl inp h st)) = body_classes st.
Proof.
  destruct h as [r t | r t | | | | | sid]; cbn [run_handler].
  - apply openEmulator_body_classes.
  - destruct (activation_key (in_key inp));
      [apply openEmulator_body_classes | reflexivity].
  - apply openEmulator_body_classes.
  - destruct (activation_key (in_key inp));
      [apply openEmulator_body_classes | reflexivity].
  - destruct (in_confirm inp); [|reflexivity].
    rewrite backBtn_click_confirmed. apply exit_state_body_classes.
  - apply (proj1 (fullBtn_click_frame (in_granted inp) st)).
  - apply (proj1 (script_onerror_frame sid st)).
Qed.

Lemma run_listeners_body_classes (cl : closure) (ev : string) (inp : input)
  (ls : list listener) (st : state) :
  body_classes (re_state (run_listeners cl ev inp ls st)) = body_classes st.
Proof.
  revert st. induction ls as [|[ty h] ls IH]; intros st; cbn; [reflexivity|].
  destruct (String.eqb ty ev); cbn; [|apply IH].
  rewrite IH. apply run_handler_body_classes.
Qed.

Lemma step_body_classes (cl : closure) (l : label) (st : state) :
  body_classes (re_state (step cl l st)) = body_classes st.
Proof.
  destruct l as [value label | ev inp path | sid | | e | b]; cbn [step].
  - apply (proj1 (search_frame cl value label st)).
  - unfold dispatch. apply run_listeners_body_classes.
  - destruct (Nat.ltb sid (next_sid st)); [|reflexivity].
    apply (proj1 (script_onerror_frame sid st)).
  - cbn. unfold fire_timer. destruct (timers st); reflexivity.
  - reflexivity.
  - reflexivity.
Qed.

Lemma classList_add_spec (c : string) (l : list string) :
  In c (classList_add c l)
  /\ (In c l -> classList_add c l = l)
  /\ (~ In c l -> classList_add c l = l ++ [c]).
Proof.
  unfold classList_add. destruct (existsb (String.eqb c) l) eqn:E.
  - apply existsb_exists in E. destruct E as [x [Hx Ex]].
    apply String.eqb_eq in Ex. subst x.
    repeat split; try assumption; try reflexivity. intros N. contradiction.
  - repeat split.
    + apply in_or_app. right. now left.
    + intros Hin. exfalso.
      assert (T : existsb (String.eqb c) l = true).
      { apply existsb_exists. exists c. split; [exact Hin|].
        apply String.eqb_refl. }
      congruence.
Qed.

(** X16.  Dark mode is always on: in every reachable state the body has
    the class [dark-mode], and its class list is the one of the loaded
    page with [dark-mode] added once at the end (left as it was when the
    page already had the class); no handler changes it. *)
Theorem dark_mode_always (pg : page) (ls : list label) :
  let st := run (init_closure pg) ls (init_state pg) in
  In "dark-mode" (body_classes st)
  /\ body_classes st = classList_add "dark-mode" (pg_body_classes pg)
  /\ (In "dark-mode" (pg_body_classes pg) ->
      body_classes st = pg_body_classes pg)
  /\ (~ In "dark-mode" (pg_body_classes pg) ->
      body_classes st = pg_body_classes pg ++ ["dark-mode"]).
Proof.
  intros st.
  assert (G : forall s0,
             body_classes (run (init_closure pg) ls s0) = body_classes s0).
  { induction ls as [|l ls IH]; intros s0; cbn; [reflexivity|].
    rewrite IH. apply step_body_classes. }
  assert (E : body_classes st = classList_add "dark-mode" (pg_body_classes pg))
    by (unfold st; now rewrite G).
  destruct (classList_add_spec "dark-mode" (pg_body_classes pg))
    as [H1 [H2 H3]].
  rewrite E. repeat split; assumption.
Qed.

(* ================================================================== *)
(** ** The freshly loaded page *)


Lemma node_kids_bind_cards (n : node) :
  node_kids (bind_cards n) = map bind_cards (node_kids n).
Proof. destruct n; reflexivity. Qed.

Lemma node_at_bind_cards (path : list nat) :
  forall l,
    node_at path (map bind_cards l) = option_map bind_cards (node_at path l).
Proof.
  induction path as [|i rest IH]; intros l; [reflexivity|].
  cbn [node_at]. rewrite nth_error_map.
  destruct (nth_error l i) as [n|]; cbn [option_map]; [|reflexivity].
  destruct rest as [|j rest]; [reflexivity|].
  rewrite node_kids_bind_cards. apply IH.
Qed.








Lemma NoStatic_frame (st st' : state) :
  before st' = before st -> after st' = after st ->
  NoStatic st -> NoStatic st'.
Proof. unfold NoStatic. now intros -> ->. Qed.

Lemma NoStatic_openEmulator (arg : jsval) (st : state) :
  NoStatic st -> NoStatic (out_state (openEmulator arg st)).
Proof.
  intros [Hb Ha].
  destruct (getElementById "game" (document st)) as [g|] eqn:G.
  - rewrite (openEmulator_guarded arg st g G). now split.
  - rewrite (openEmulator_menu arg st G).
    destruct (resolve_card arg st); cbn [out_state]; split; try assumption.
    apply no_game_app. split; [exact Ha | reflexivity].
Qed.

Lemma NoStatic_exit (cl : closure) (st : state) :
  NoStatic st -> NoStatic (exit_state cl st).
Proof.
  intros [Hb Ha]. destruct (exit_state_spec cl st) as [Eb [Ea _]].
  split.
  - apply (querySelector_same_markup _ (has_id_shape "game")
             (remove_all
                (is_loader_script (global_text (EJS_pathtodata (window st))))
                (before st))); [now symmetry|].
    now apply querySelector_remove_all_none; [apply has_id_shape|].
  - apply (querySelector_same_markup _ (has_id_shape "game")
             (remove_all
                (is_loader_script (global_text (EJS_pathtodata (window st))))
                (after st))); [now symmetry|].
    now apply querySelector_remove_all_none; [apply has_id_shape|].
Qed.

Lemma NoStatic_run_handler (cl : closure) (inp : input) (h : handler)
  (st : state) :
  NoStatic st -> NoStatic (out_state (run_handler cl inp h st)).
Proof.
  intros H. destruct h as [r t | r t | | | | | sid]; cbn [run_handler].
  - now apply NoStatic_openEmulator.
  - destruct (activation_key (in_key inp));
      [now apply NoStatic_openEmulator | exact H].
  - now apply NoStatic_openEmulator.
  - destruct (activation_key (in_key inp));
      [now apply NoStatic_openEmulator | exact H].
  - destruct (in_confirm inp); [|exact H].
    rewrite backBtn_click_confirmed. now apply NoStatic_exit.
  - destruct (fullBtn_click_frame (in_granted inp) st) as [_ [Eb Ea]].
    exact (NoStatic_frame _ _ Eb Ea H).
  - destruct (script_onerror_frame sid st) as [_ [Eb Ea]].
    exact (NoStatic_frame _ _ Eb Ea H).
Qed.

Lemma NoStatic_run_listeners (cl : closure) (ev : string) (inp : input)
  (ls : list listener) (st : state) :
  NoStatic st -> NoStatic (re_state (run_listeners cl ev inp ls st)).
Proof.
  revert st. induction ls as [|[ty h] ls IH]; intros st H; cbn; [exact H|].
  destruct (String.eqb ty ev); cbn; [|now apply IH].
  apply IH. now apply NoStatic_run_handler.
Qed.

Lemma NoStatic_step (cl : closure) (l : label) (st : state) :
  NoStatic st -> NoStatic (re_state (step cl l st)).
Proof.
  intros H. destruct l as [value label | ev inp path | sid | | e | b]; cbn [step].
  - destruct (search_frame cl value label st) as [_ [Eb Ea]].
    exact (NoStatic_frame _ _ Eb Ea H).
  - unfold dispatch. now apply NoStatic_run_listeners.
  - destruct (Nat.ltb sid (next_sid st)); [|exact H].
    destruct (script_onerror_frame sid st) as [_ [Eb Ea]].
    exact (NoStatic_frame _ _ Eb Ea H).
  - cbn. unfold fire_timer. destruct (timers st); exact H.
  - exact H.
  - exact H.
Qed.

Lemma NoStatic_run (cl : closure) (ls : list label) (st : state) :
  NoStatic st -> NoStatic (run cl ls st).
Proof.
  revert st. induction ls as [|l ls IH]; intros st H; cbn; [exact H|].
  apply IH. now apply NoStatic_step.
Qed.

Lemma no_game_bind_cards (l : list node) :
  no_game l -> no_game (map bind_cards l).
Proof.
  intros H.
  apply (querySelector_same_markup _ (has_id_shape "game") l); [|exact H].
  symmetry. apply innerHTML_bind_cards.
Qed.

(** X18.  The session state the code derives from the document (is there
    a [#game]?) and the content of [#launch] agree in every reachable
    state of a page that has no [#game] of its own: the state is [InGame]
    exactly when [#launch] holds a session container, and [Menu] exactly
    when it holds menu markup, which is then the markup of the loaded
    page or the markup a restoration installs. *)
Theorem session_state_is_launch_content (pg : page) (ls : list label) :
  no_game (page_document pg) ->
  let st := run (init_closure pg) ls (init_state pg) in
  match launch st with
  | LaunchGame _ => sessionState st = InGame
  | LaunchMenu k =>
      sessionState st = Menu
      /\ (innerHTML k = innerHTML (pg_launch pg)
          \/ innerHTML k = restored_markup (init_closure pg))
  end.
Proof.
  intros G st. unfold page_document in G.
  apply no_game_app in G. destruct G as [Gb G].
  apply no_game_app in G. destruct G as [Gl Ga].
  assert (N : NoStatic st).
  { apply NoStatic_run. split; cbn; now apply no_game_bind_cards. }
  assert (I : Inv pg st) by apply Inv_run, Inv_init.
  destruct N as [Nb Na]. destruct I as [_ I].
  destruct (launch st) as [k|s] eqn:El.
  - destruct I as [Hk _]. split; [|exact Hk].
    apply sessionState_Menu. unfold document. rewrite El. cbn [launch_kids].
    apply no_game_app. split; [exact Nb|]. apply no_game_app.
    split; [|exact Na].
    destruct Hk as [Hk | Hk].
    + apply (querySelector_same_markup _ (has_id_shape "game") (pg_launch pg));
        [now symmetry | exact Gl].
    + apply (querySelector_same_markup _ (has_id_shape "game")
               (restored_markup (init_closure pg)));
        [now rewrite restored_markup_idem|].
      apply no_game_restored. now apply no_game_innerHTML.
  - apply sessionState_InGame. exact (game_launch_has_mount st s El).
Qed.

(* ================================================================== *)
(** ** Which nodes carry which listeners *)

Lemma fold_all_Forall (P : node -> Prop) (l : list node) :
  fold_right (fun k acc => all_nodes P k /\ acc) True l
  <-> Forall (all_nodes P) l.
Proof.
  induction l as [|x l IH]; cbn.
  - split; [constructor | trivial].
  - rewrite IH. split; [intros [H1 H2]; now constructor|].
    intros H. inversion H. now split.
Qed.

Lemma all_nodes_Elem (P : node -> Prop) t a css ls kids :
  all_nodes P (Elem t a css ls kids)
  <-> P (Elem t a css ls kids) /\ Forall (all_nodes P) kids.
Proof. cbn [all_nodes]. now rewrite fold_all_Forall. Qed.

Lemma all_nodes_here (P : node -> Prop) (n : node) : all_nodes P n -> P n.
Proof. destruct n; cbn; tauto. Qed.

Lemma all_nodes_kids (P : node -> Prop) (n : node) :
  all_nodes P n -> Forall (all_nodes P) (node_kids n).
Proof.
  destruct n as [t a css ls kids | s]; [|constructor].
  intros H. now apply all_nodes_Elem in H.
Qed.

(** What holds everywhere holds of the node a path leads to. *)
Lemma all_nodes_node_at (P : node -> Prop) (path : list nat) :
  forall l n,
    Forall (all_nodes P) l -> node_at path l = Some n -> all_nodes P n.
Proof.
  induction path as [|i rest IH]; intros l n Hl Hn; [discriminate|].
  cbn [node_at] in Hn. destruct (nth_error l i) as [m|] eqn:Em; [|discriminate].
  assert (Hm : all_nodes P m).
  { rewrite Forall_forall in Hl. apply Hl. eapply nth_error_In, Em. }
  destruct rest as [|j rest]; [now injection Hn as <-|].
  apply (IH (node_kids m) n); [now apply all_nodes_kids | exact Hn].
Qed.

Lemma all_nodes_weaken (P Q : node -> Prop) (n : node) :
  (forall m, P m -> Q m) -> all_nodes P n -> all_nodes Q n.
Proof.
  intros PQ.
  induction n as [s | t a css ls kids IH] using node_forall_ind.
  - cbn. intros [H _]. split; [now apply PQ | exact I].
  - rewrite !all_nodes_Elem. intros [H Hk]. split; [now apply PQ|].
    rewrite Forall_forall in *. intros x Hx. apply IH; [exact Hx|].
    now apply Hk.
Qed.

(** A selector that finds nothing holds of no node, at any depth. *)
Lemma find_node_none_all (p : node -> bool) (n : node) :
  find_node p n = None -> all_nodes (fun m => p m = false) n.
Proof.
  induction n as [s | t a css ls kids IH] using node_forall_ind;
    cbn [find_node].
  - destruct (p (Text s)) eqn:E; [discriminate|]. intros _. now split.
  - destruct (p (Elem t a css ls kids)) eqn:E; [discriminate|]. intros H.
    apply all_nodes_Elem. split; [exact E|]. clear E. revert H.
    induction IH as [|x l Hx Hl IHl]; intros H; [constructor|].
    cbn [first_some] in H. destruct (find_node p x) eqn:Ex; [discriminate|].
    constructor; [now apply Hx | now apply IHl].
Qed.

Lemma querySelector_none_all (p : node -> bool) (l : list node) :
  querySelector p l = None -> Forall (all_nodes (fun m => p m = false)) l.
Proof.
  unfold querySelector. induction l as [|x l IH]; [constructor|].
  cbn [first_some]. destruct (find_node p x) eqn:Ex; [discriminate|].
  intros H. constructor; [now apply find_node_none_all | now apply IH].
Qed.

(** The selector of line 203 under the data path of line 169 matches
    every script whose address starts with the loader's. *)
Lemma loader_selector_sound (n : node) :
  is_loader_script pathtodata n = false -> ~ script_from loader_src n.
Proof.
  intros H [Ht [v [Hv Hs]]]. unfold is_loader_script in H.
  rewrite Ht, Hv in H.
  change (pathtodata ++ "loader.js")%string with loader_src in H.
  rewrite Hs in H. discriminate.
Qed.

Lemma script_node_is_loader (sid : nat) :
  script_from loader_src (script_node loader_src sid).
Proof.
  split; [reflexivity|]. exists loader_src. split; reflexivity.
Qed.

(** After a confirmed exit no loader script is left around [#launch]. *)
Lemma no_loader_left (cl : closure) (st : state) :
  EJS_pathtodata (window st) = Some pathtodata ->
  querySelector (is_loader_script pathtodata)
    (before (exit_state cl st)) = None ->
  querySelector (is_loader_script pathtodata)
    (after (exit_state cl st)) = None ->
  Forall (all_nodes (fun n => ~ script_from loader_src n))
    (before (exit_state cl st) ++ after (exit_state cl st))
  /\ forall sid, ~ In (script_node loader_src sid) (after (exit_state cl st)).
Proof.
  intros _ Nb Na.
  assert (W : forall l, querySelector (is_loader_script pathtodata) l = None ->
                        Forall (all_nodes (fun n => ~ script_from loader_src n)) l).
  { intros l H. apply querySelector_none_all in H.
    eapply Forall_impl; [|exact H]. intros n Hn.
    eapply all_nodes_weaken; [|exact Hn]. exact loader_selector_sound. }
  split.
  - apply Forall_app. split; now apply W.
  - intros sid Hin. apply W in Na. rewrite Forall_forall in Na.
    apply Na in Hin. apply all_nodes_here in Hin.
    exact (Hin (script_node_is_loader sid)).
Qed.

(** C8.  A confirmed exit never throws.  The engine's [exit] is called
    exactly when [window.EJS_emulator] exists and has a callable [exit];
    when the call throws, a warning is logged and nothing propagates.  In
    every case the exit goes on: the menu is restored from the saved
    markup, and no script whose [src] starts with the data path's loader
    (or [src/loader.js]) is left in the document around [#launch], where
    [openEmulator] appends it; the document has such a script afterwards
    only if the restored menu markup itself contains one.  In particular,
    while [EJS_pathtodata] is as [openEmulator] set it, no [script] element
    whose [src] starts with the loader's address is left around [#launch]
    at any depth, and the script an activation appended is gone. *)
Theorem confirmed_exit_is_best_effort (cl : closure) (st : state) :
  let r := backBtn_click cl true st in
  let sel := is_loader_script (global_text (EJS_pathtodata (window st))) in
  out_result r = Normal tt
  /\ out_events r
     = EvConfirm confirmText ::
       match EJS_emulator (window st) with
       | EmuExit false => [EvEngineExit]
       | EmuExit true =>
           [EvEngineExit; EvConsoleWarn "EJS_emulator.exit failed"]
       | EmuNoExit | EmuUndefined => []
       end
  /\ (exists k, launch (out_state r) = LaunchMenu k
                /\ innerHTML k = restored_markup cl)
  /\ querySelector sel (before (out_state r)) = None
  /\ querySelector sel (after (out_state r)) = None
  /\ (querySelector sel (document (out_state r)) = None
      <-> querySelector sel (restored_markup cl) = None)
  /\ (EJS_pathtodata (window st) = Some pathtodata ->
      Forall (all_nodes (fun n => ~ script_from loader_src n))
        (before (out_state r) ++ after (out_state r))
      /\ forall sid, ~ In (script_node loader_src sid) (after (out_state r))).
Proof.
  intros r sel. unfold r. rewrite backBtn_click_confirmed.
  cbn [out_result out_state out_events].
  destruct (exit_state_spec cl st) as [Hb [Ha [[k [Hk Hk']] _]]].
  fold sel in Hb, Ha.
  assert (Nb : querySelector sel (before (exit_state cl st)) = None).
  { apply (querySelector_same_markup sel (is_loader_script_shape _)
             (remove_all sel (before st))); [now symmetry|].
    apply querySelector_remove_all_self, is_loader_script_shape. }
  assert (Na : querySelector sel (after (exit_state cl st)) = None).
  { apply (querySelector_same_markup sel (is_loader_script_shape _)
             (remove_all sel (after st))); [now symmetry|].
    apply querySelector_remove_all_self, is_loader_script_shape. }
  split; [reflexivity|]. split; [reflexivity|].
  split; [exists k; now split|]. split; [exact Nb|]. split; [exact Na|].
  split; [|intros Hp; unfold sel in Nb, Na; rewrite Hp in Nb, Na;
          now apply no_loader_left].
  unfold document, querySelector. rewrite Hk. cbn [launch_kids].
  rewrite !first_some_app. fold (querySelector sel (before (exit_state cl st))).
  fold (querySelector sel (after (exit_state cl st))).
  fold (querySelector sel k). fold (querySelector sel (restored_markup cl)).
  rewrite Nb, Na. split; intros H.
  - apply (querySelector_same_markup sel (is_loader_script_shape _) k).
    + now rewrite restored_markup_idem.
    + now destruct (querySelector sel k).
  - rewrite (querySelector_same_markup sel (is_loader_script_shape _)
               (restored_markup cl) k);
      [reflexivity | now rewrite restored_markup_idem | exact H].
Qed.

Lemma all_nodes_strip (l : list node) :
  Forall (all_nodes (fun n => node_listeners n = [])) (map strip l).
Proof.
  assert (S : forall n, all_nodes (fun n => node_listeners n = []) (strip n)).
  { induction n as [s | t a css ls kids IH] using node_forall_ind.
    - now cbn.
    - cbn [strip]. apply all_nodes_Elem. split; [reflexivity|].
      rewrite Forall_map. exact IH. }
  rewrite Forall_map. apply Forall_forall. intros x _. apply S.
Qed.

Lemma all_nodes_bind_cards (l : list node) :
  Forall (all_nodes no_back) (map bind_cards l).
Proof.
  assert (S : forall n, all_nodes no_back (bind_cards n)).
  { induction n as [s | t a css ls kids IH] using node_forall_ind.
    - cbn. split; [constructor | exact I].
    - cbn [bind_cards]. apply all_nodes_Elem. split.
      + unfold no_back. cbn [node_listeners].
        destruct (is_rom_card _); [|constructor].
        unfold card_listeners. repeat constructor; discriminate.
      + rewrite Forall_map. exact IH. }
  rewrite Forall_map. apply Forall_forall. intros x _. apply S.
Qed.

Section Preservation.

Variable P : node -> Prop.
Hypothesis P_blind : kid_blind P.

Lemma all_nodes_prune (q : node -> bool) (n : node) :
  all_nodes P n -> all_nodes P (prune q n).
Proof.
  induction n as [s | t a css ls kids IH] using node_forall_ind;
    [trivial|].
  cbn [prune]. rewrite !all_nodes_Elem. intros [H Hk]. split.
  - exact (P_blind _ _ _ _ _ _ H).
  - clear H. induction IH as [|x l Hx _ IHl]; cbn; [constructor|].
    inversion Hk as [|x' l' Hx' Hl']; subst.
    destruct (q x); [now apply IHl|]. constructor; [now apply Hx|].
    now apply IHl.
Qed.

Lemma all_nodes_remove_all (q : node -> bool) (l : list node) :
  Forall (all_nodes P) l -> Forall (all_nodes P) (remove_all q l).
Proof.
  unfold remove_all. induction l as [|x l IH]; intros H; cbn; [constructor|].
  inversion H as [|x' l' Hx Hl]; subst.
  destruct (q x); [now apply IH|].
  constructor; [now apply all_nodes_prune | now apply IH].
Qed.

Variable p : node -> bool.
Variable new : list listener.
Hypothesis P_new : forall n, P n -> p n = true -> P (add_listeners new n).

Lemma all_nodes_add_listeners (n : node) :
  all_nodes P n -> p n = true -> all_nodes P (add_listeners new n).
Proof.
  destruct n as [t a css ls kids | s]; [|trivial].
  intros H Hp. cbn [add_listeners]. apply all_nodes_Elem.
  apply all_nodes_Elem in H. destruct H as [H Hk]. split; [|exact Hk].
  exact (P_new _ H Hp).
Qed.

Lemma all_nodes_update_node (n n' : node) :
  update_node p (add_listeners new) n = Some n' ->
  all_nodes P n -> all_nodes P n'.
Proof.
  revert n'.
  induction n as [s | t a css ls kids IH] using node_forall_ind; intros n'.
  - cbn. destruct (p (Text s)) eqn:E; [|discriminate].
    intros H; injection H as <-. trivial.
  - cbn [update_node]. destruct (p (Elem t a css ls kids)) eqn:E.
    + intros H; injection H as <-. intros Hn.
      exact (all_nodes_add_listeners _ Hn E).
    + destruct (first_update (update_node p (add_listeners new)) kids)
        as [kids'|] eqn:Ek; [|discriminate].
      intros H; injection H as <-. rewrite !all_nodes_Elem.
      intros [H Hk]. split; [exact (P_blind _ _ _ _ _ _ H)|].
      clear H E. revert kids' Ek Hk.
      induction IH as [|x l Hx _ IHl]; intros kids' Ek Hk; cbn in Ek;
        [discriminate|].
      inversion Hk as [|x0 l0 Hx0 Hl0]; subst.
      destruct (update_node p (add_listeners new) x) as [x'|] eqn:Ex.
      * injection Ek as <-. constructor; [now apply (Hx x') | exact Hl0].
      * destruct (first_update (update_node p (add_listeners new)) l)
          as [l'|] eqn:El; [|discriminate].
        injection Ek as <-. constructor; [exact Hx0 | now apply (IHl l')].
Qed.

Lemma all_nodes_update_first (l l' : list node) :
  update_first p (add_listeners new) l = Some l' ->
  Forall (all_nodes P) l -> Forall (all_nodes P) l'.
Proof.
  unfold update_first. revert l'.
  induction l as [|x l IH]; intros l' E H; cbn in E; [discriminate|].
  inversion H as [|x0 l0 Hx Hl]; subst.
  destruct (update_node p (add_listeners new) x) as [x'|] eqn:Ex.
  - injection E as <-. constructor; [|exact Hl].
    exact (all_nodes_update_node x x' Ex Hx).
  - destruct (first_update (update_node p (add_listeners new)) l)
      as [l0|] eqn:El; [|discriminate].
    injection E as <-. constructor; [exact Hx | now apply IH].
Qed.

End Preservation.

Lemma no_back_blind : kid_blind no_back.
Proof. intros t a css ls kids kids' H. exact H. Qed.

Lemma inert_blind : kid_blind inert_unless_gameBtn.
Proof. intros t a css ls kids kids' H. exact H. Qed.

Lemma no_back_rebound (n : node) : no_back n -> no_back (add_listeners rebound n).
Proof.
  destruct n as [t a css ls kids | s]; [|trivial].
  unfold no_back. cbn [add_listeners node_listeners]. intros H.
  apply Forall_app. split; [exact H|].
  unfold rebound. repeat constructor; discriminate.
Qed.

Lemma inert_rebound (n : node) :
  inert_unless_gameBtn n -> has_id "gameBtn" n = true ->
  inert_unless_gameBtn (add_listeners rebound n).
Proof.
  destruct n as [t a css ls kids | s]; [|trivial].
  unfold inert_unless_gameBtn. intros _ Hid Hno.
  change (has_id "gameBtn" (Elem t a css ls kids) = false) in Hno. congruence.
Qed.

(** What [rebind_gameBtn] does to each region. *)
Lemma rebind_gameBtn_regions (st : state) :
  let st' := rebind_gameBtn st in
  let upd := update_first (has_id "gameBtn") (add_listeners rebound) in
  (before st' = before st \/ upd (before st) = Some (before st'))
  /\ (after st' = after st \/ upd (after st) = Some (after st'))
  /\ match launch st with
     | LaunchMenu k =>
         launch st' = LaunchMenu k
         \/ exists k', upd k = Some k' /\ launch st' = LaunchMenu k'
     | LaunchGame s => launch st' = LaunchGame s
     end.
Proof.
  unfold rebind_gameBtn.
  destruct (update_first _ _ (before st)) as [b|] eqn:Eb.
  { cbn. repeat split; [now right | now left|].
    destruct (launch st); [now left | reflexivity]. }
  destruct (launch st) as [k|s] eqn:El.
  - destruct (update_first _ _ k) as [k'|] eqn:Ek.
    { cbn. repeat split; [now left | now left|].
      right. now exists k'. }
    destruct (update_first _ _ (after st)) as [a|] eqn:Ea.
    + cbn. repeat split; [now left | now right|]. rewrite El. now left.
    + repeat split; [now left | now left|]. rewrite El. now left.
  - destruct (update_first _ _ (after st)) as [a|] eqn:Ea.
    + cbn. repeat split; [now left | now right | exact El].
    + repeat split; [now left | now left | exact El].
Qed.

Lemma remove_loader_scripts_regions (st : state) :
  let sel := is_loader_script (global_text (EJS_pathtodata (window st))) in
  before (remove_loader_scripts st) = remove_all sel (before st)
  /\ after (remove_loader_scripts st) = remove_all sel (after st).
Proof.
  unfold remove_loader_scripts. cbv zeta. simpl_state.
  destruct (launch st); now split.
Qed.

(** The regions after a confirmed exit, by what was done to them. *)
Lemma exit_state_regions (cl : closure) (st : state) :
  let sel := is_loader_script (global_text (EJS_pathtodata (window st))) in
  let upd := update_first (has_id "gameBtn") (add_listeners rebound) in
  (before (exit_state cl st) = remove_all sel (before st)
   \/ upd (remove_all sel (before st)) = Some (before (exit_state cl st)))
  /\ (after (exit_state cl st) = remove_all sel (after st)
      \/ upd (remove_all sel (after st)) = Some (after (exit_state cl st)))
  /\ (launch (exit_state cl st) = LaunchMenu (restored_markup cl)
      \/ exists k', upd (restored_markup cl) = Some k'
                    /\ launch (exit_state cl st) = LaunchMenu k').
Proof.
  intros sel upd. unfold exit_state. cbv zeta. simpl_state.
  match goal with
  | |- context [rebind_gameBtn ?s] =>
      destruct (rebind_gameBtn_regions s) as [Hb [Ha Hl]]
  end.
  revert Hb Ha Hl. simpl_state.
  destruct (remove_loader_scripts_regions st) as [-> ->]. fold sel upd.
  intros Hb Ha Hl. repeat split; assumption.
Qed.

(** X19.  After a confirmed exit the restored menu reacts through
    [#gameBtn] only: every other node of [#launch], game cards included,
    has no listener at all, although every card had its click and key
    listeners when the page was loaded. *)
Theorem restored_menu_only_gameBtn_listens
  (pg : page) (st : state) (path : list nat) (n : node) :
  node_at path (launch_kids (launch (exit_state (init_closure pg) st)))
  = Some n ->
  has_id "gameBtn" n = false ->
  node_listeners n = [].
Proof.
  intros Hn Hid.
  assert (A : Forall (all_nodes inert_unless_gameBtn)
                (launch_kids (launch (exit_state (init_closure pg) st)))).
  { assert (A0 : Forall (all_nodes inert_unless_gameBtn)
                   (restored_markup (init_closure pg))).
    { unfold restored_markup, innerHTML.
      eapply Forall_impl; [|apply all_nodes_strip].
      intros m. apply all_nodes_weaken. intros x Hx _. exact Hx. }
    destruct (exit_state_regions (init_closure pg) st)
      as [_ [_ [-> | [k' [Hk ->]]]]]; cbn [launch_kids]; [exact A0|].
    exact (all_nodes_update_first _ inert_blind _ _ inert_rebound _ _ Hk A0). }
  apply (all_nodes_here _ _ (all_nodes_node_at _ path _ n A Hn)). exact Hid.
Qed.

(* ================================================================== *)
(** ** The state the [TypeError] leaves *)

Lemma Keeps_init (pg : page) : Keeps (init_state pg).
Proof.
  repeat split; cbn; apply all_nodes_bind_cards.
Qed.

Lemma no_back_script (src : string) (sid : nat) :
  all_nodes no_back (script_node src sid).
Proof.
  unfold script_node. apply all_nodes_Elem. split; [|constructor].
  unfold no_back. cbn. constructor; [discriminate | constructor].
Qed.

Lemma no_back_err_node : all_nodes no_back err_node.
Proof.
  unfold err_node. apply all_nodes_Elem. split; [constructor|].
  constructor; [|constructor]. cbn. split; [constructor | exact I].
Qed.

Lemma Keeps_openEmulator (arg : jsval) (st : state) :
  Keeps st -> Keeps (out_state (openEmulator arg st)).
Proof.
  intros [Hb [Ha Hl]].
  destruct (getElementById "game" (document st)) as [g|] eqn:G.
  - rewrite (openEmulator_guarded arg st g G). now repeat split.
  - rewrite (openEmulator_menu arg st G).
    destruct (resolve_card arg st); cbn [out_state];
      unfold Keeps, entered, half_entered; simpl_state;
      repeat split; try assumption; try constructor;
      try (apply Forall_app; split; [assumption|]);
      try (constructor; [apply no_back_script | constructor]);
      try (cbn; discriminate); constructor.
Qed.

Lemma Keeps_exit (cl : closure) (st : state) :
  Keeps st -> Keeps (exit_state cl st).
Proof.
  intros [Hb [Ha _]].
  destruct (exit_state_regions cl st) as [Eb [Ea El]].
  assert (R : forall l, Forall (all_nodes no_back) l ->
                Forall (all_nodes no_back)
                  (remove_all
                     (is_loader_script
                        (global_text (EJS_pathtodata (window st)))) l))
    by (intros l; apply all_nodes_remove_all, no_back_blind).
  assert (U : forall l l',
                update_first (has_id "gameBtn") (add_listeners rebound) l
                = Some l' ->
                Forall (all_nodes no_back) l -> Forall (all_nodes no_back) l').
  { intros l l'. apply (all_nodes_update_first _ no_back_blind).
    intros n Hn _. now apply no_back_rebound. }
  repeat split.
  - destruct Eb as [-> | Eb]; [now apply R|]. exact (U _ _ Eb (R _ Hb)).
  - destruct Ea as [-> | Ea]; [now apply R|]. exact (U _ _ Ea (R _ Ha)).
  - destruct El as [-> | [k' [_ ->]]]; exact I.
Qed.

Lemma Keeps_frame (st st' : state) :
  before st' = before st -> after st' = after st -> launch st' = launch st ->
  Keeps st -> Keeps st'.
Proof. unfold Keeps. now intros -> -> ->. Qed.

Lemma script_onerror_launch (sid : nat) (st : state) :
  launch (out_state (script_onerror sid st)) = launch st
  \/ exists s, launch st = LaunchGame s
               /\ launch (out_state (script_onerror sid st))
                  = LaunchGame (with_error s).
Proof.
  unfold script_onerror. rewrite bind_modify. unfold emit, update_session.
  cbn [out_state]. destruct (launch st) as [k|s] eqn:El; [left; exact El|].
  destruct (Nat.eqb (s_id s) sid); [|left; exact El].
  right. exists s. split; reflexivity.
Qed.

Lemma Keeps_script_onerror (sid : nat) (st : state) :
  Keeps st -> Keeps (out_state (script_onerror sid st)).
Proof.
  intros K. destruct (script_onerror_frame sid st) as [_ [Eb Ea]].
  destruct (script_onerror_launch sid st) as [El | [s [Es El]]].
  - exact (Keeps_frame _ _ Eb Ea El K).
  - destruct K as [Hb [Ha Hl]]. rewrite Es in Hl. destruct Hl as [Hf Hp].
    unfold Keeps. cbv zeta in Eb, Ea. rewrite Eb, Ea, El.
    repeat split; try assumption. cbn [with_error s_appended].
    apply Forall_app. split; [exact Hp|].
    constructor; [apply no_back_err_node | constructor].
Qed.

Lemma fullBtn_click_launch (g : bool) (st : state) :
  launch (out_state (fullBtn_click g st)) = launch st.
Proof.
  unfold fullBtn_click. rewrite bind_get.
  destruct (fullscreenElement st), g; reflexivity.
Qed.

Lemma search_launch (cl : closure) (value label : string) (st : state) :
  launch (out_state (searchBtn_click cl value label st)) = launch st.
Proof.
  destruct (searchBtn_click_cases cl value label st) as [[ev [r ->]] | ->];
    reflexivity.
Qed.

Lemma Keeps_run_handler (cl : closure) (inp : input) (h : handler)
  (st : state) :
  Keeps st -> Keeps (out_state (run_handler cl inp h st)).
Proof.
  intros H. destruct h as [r t | r t | | | | | sid]; cbn [run_handler].
  - now apply Keeps_openEmulator.
  - destruct (activation_key (in_key inp));
      [now apply Keeps_openEmulator | exact H].
  - now apply Keeps_openEmulator.
  - destruct (activation_key (in_key inp));
      [now apply Keeps_openEmulator | exact H].
  - destruct (in_confirm inp); [|exact H].
    rewrite backBtn_click_confirmed. now apply Keeps_exit.
  - destruct (fullBtn_click_frame (in_granted inp) st) as [_ [Eb Ea]].
    exact (Keeps_frame _ _ Eb Ea (fullBtn_click_launch _ st) H).
  - now apply Keeps_script_onerror.
Qed.

(** In a dead session a handler other than the exit handler leaves the
    session dead. *)
Lemma Dead_run_handler (cl : closure) (inp : input) (h : handler)
  (st : state) :
  h <> HBack -> Dead st -> Dead (out_state (run_handler cl inp h st)).
Proof.
  intros Hh [s [El Hs]].
  assert (O : forall arg, out_state (openEmulator arg st) = st).
  { intros arg. destruct (game_launch_has_mount st s El) as [g G].
    now rewrite (openEmulator_guarded arg st g G). }
  assert (D : Dead st) by (exists s; now split).
  destruct h as [r t | r t | | | | | sid]; cbn [run_handler].
  - now rewrite O.
  - destruct (activation_key (in_key inp)); [now rewrite O | exact D].
  - now rewrite O.
  - destruct (activation_key (in_key inp)); [now rewrite O | exact D].
  - congruence.
  - exists s. split; [|exact Hs]. now rewrite fullBtn_click_launch.
  - destruct (script_onerror_launch sid st) as [E | [s' [Es E]]].
    + exists s. split; [congruence | exact Hs].
    + rewrite El in Es. injection Es as <-.
      exists (with_error s). split; [exact E | exact Hs].
Qed.

Lemma Dead_Keeps_run_listeners (cl : closure) (ev : string) (inp : input)
  (ls : list listener) :
  Forall (fun l : listener => snd l <> HBack) ls ->
  forall st, Keeps st -> Dead st ->
    Keeps (re_state (run_listeners cl ev inp ls st))
    /\ Dead (re_state (run_listeners cl ev inp ls st)).
Proof.
  induction 1 as [|[ty h] ls Hh _ IH]; intros st K D; cbn; [now split|].
  destruct (String.eqb ty ev); cbn; [|now apply IH].
  apply IH; [now apply Keeps_run_handler | now apply Dead_run_handler].
Qed.

Lemma no_back_text (t : string) : all_nodes no_back (Text t).
Proof. cbn. split; [constructor | exact I]. Qed.

Lemma no_back_container (s : session) :
  s_back s = [] ->
  Forall (fun l : listener => snd l <> HBack) (s_full s) ->
  Forall (all_nodes no_back) (s_appended s) ->
  all_nodes no_back (gameContainerWrapper s).
Proof.
  intros Hs Hf Hp.
  apply all_nodes_Elem. split; [unfold no_back; cbn; constructor|].
  constructor; [|constructor].
  apply all_nodes_Elem. split; [unfold no_back; cbn; constructor|].
  constructor; [|exact Hp].
  apply all_nodes_Elem. split; [unfold no_back; cbn; constructor|].
  constructor; [|constructor; [|constructor]].
  - apply all_nodes_Elem. split.
    + unfold no_back. cbn. rewrite Hs. constructor.
    + constructor; [apply no_back_text | constructor].
  - apply all_nodes_Elem. split; [exact Hf|].
    constructor; [apply no_back_text | constructor].
Qed.

(** In a dead session no node of the document carries the exit handler. *)
Lemma Dead_document_no_back (st : state) :
  Keeps st -> Dead st -> Forall (all_nodes no_back) (document st).
Proof.
  intros [Hb [Ha Hl]] [s [El Hs]]. rewrite El in Hl. destruct Hl as [Hf Hp].
  unfold document. rewrite El. cbn [launch_kids].
  apply Forall_app. split; [exact Hb|]. constructor; [|exact Ha].
  now apply no_back_container.
Qed.

(** What holds everywhere holds along the propagation path. *)
Lemma all_nodes_nodes_along (P : node -> Prop) (path : list nat) :
  forall l, Forall (all_nodes P) l -> Forall P (nodes_along path l).
Proof.
  induction path as [|i rest IH]; intros l Hl; [constructor|].
  cbn [nodes_along]. destruct (nth_error l i) as [m|] eqn:Em; [|constructor].
  assert (Hm : all_nodes P m).
  { rewrite Forall_forall in Hl. apply Hl. eapply nth_error_In, Em. }
  destruct rest as [|j rest];
    [constructor; [now apply all_nodes_here | constructor]|].
  specialize (IH (node_kids m) (all_nodes_kids _ _ Hm)).
  destruct (nodes_along (j :: rest) (node_kids m)) as [|c cs];
    [constructor|].
  constructor; [now apply all_nodes_here | exact IH].
Qed.

Lemma listeners_along_no_back (path : list nat) (l : list node) :
  Forall (all_nodes no_back) l ->
  Forall (fun x : listener => snd x <> HBack) (listeners_along path l).
Proof.
  intros H. unfold listeners_along. apply Forall_flat_map, Forall_rev.
  exact (all_nodes_nodes_along no_back path l H).
Qed.

Lemma Dead_Keeps_step (cl : closure) (l : label) (st : state) :
  Keeps st -> Dead st ->
  Keeps (re_state (step cl l st)) /\ Dead (re_state (step cl l st)).
Proof.
  intros K D. destruct l as [value label | ev inp path | sid | | e | b];
    cbn [step].
  - destruct (search_frame cl value label st) as [_ [Eb Ea]].
    pose proof (search_launch cl value label st) as El. cbn [react re_state].
    split; [exact (Keeps_frame _ _ Eb Ea El K)|].
    destruct D as [s [Es Hs]]. exists s. split; [congruence | exact Hs].
  - unfold dispatch. apply Dead_Keeps_run_listeners; try assumption.
    apply listeners_along_no_back. now apply Dead_document_no_back.
  - destruct (Nat.ltb sid (next_sid st)); [|now split]. cbn [react re_state].
    split; [now apply Keeps_script_onerror|].
    apply (Dead_run_handler cl (mkInput "" false false) (HLoadError sid) st);
      [discriminate | exact D].
  - cbn. unfold fire_timer. destruct (timers st); now split.
  - now split.
  - now split.
Qed.

Lemma Keeps_run_listeners (cl : closure) (ev : string) (inp : input)
  (ls : list listener) (st : state) :
  Keeps st -> Keeps (re_state (run_listeners cl ev inp ls st)).
Proof.
  revert st. induction ls as [|[ty h] ls IH]; intros st H; cbn; [exact H|].
  destruct (String.eqb ty ev); cbn; [|now apply IH].
  apply IH. now apply Keeps_run_handler.
Qed.

Lemma Keeps_step (cl : closure) (l : label) (st : state) :
  Keeps st -> Keeps (re_state (step cl l st)).
Proof.
  intros K. destruct l as [value label | ev inp path | sid | | e | b]; cbn [step].
  - destruct (search_frame cl value label st) as [_ [Eb Ea]].
    exact (Keeps_frame _ _ Eb Ea (search_launch cl value label st) K).
  - unfold dispatch. now apply Keeps_run_listeners.
  - destruct (Nat.ltb sid (next_sid st)); [|exact K].
    now apply Keeps_script_onerror.
  - cbn. unfold fire_timer. destruct (timers st); exact K.
  - exact K.
  - exact K.
Qed.

Lemma Keeps_run (cl : closure) (ls : list label) (st : state) :
  Keeps st -> Keeps (run cl ls st).
Proof.
  revert st. induction ls as [|l ls IH]; intros st K; cbn; [exact K|].
  apply IH. now apply Keeps_step.
Qed.

Lemma Dead_Keeps_run (cl : closure) (ls : list label) (st : state) :
  Keeps st -> Dead st -> Dead (run cl ls st).
Proof.
  revert st. induction ls as [|l ls IH]; intros st K D; cbn; [exact D|].
  destruct (Dead_Keeps_step cl l st K D) as [K' D']. now apply IH.
Qed.

(** X20.  A session container whose exit control has no listener (what
    [openEmulator] leaves when it throws at line 163) is a dead end: from
    a reachable state showing one, no sequence of clicks, key presses,
    searches, timers or script failures brings the menu back; [#launch]
    keeps holding a container with a deaf exit control and the session
    state stays [InGame]. *)
Theorem unbound_exit_is_a_dead_end
  (pg : page) (ls1 ls2 : list label) (s : session) :
  let cl := init_closure pg in
  let st := run cl ls1 (init_state pg) in
  launch st = LaunchGame s ->
  s_back s = [] ->
  (exists s', launch (run cl ls2 st) = LaunchGame s' /\ s_back s' = [])
  /\ sessionState (run cl ls2 st) = InGame.
Proof.
  intros cl st El Hs.
  assert (K : Keeps st) by apply Keeps_run, Keeps_init.
  assert (D : Dead (run cl ls2 st))
    by (apply Dead_Keeps_run; [exact K | now exists s]).
  split; [exact D|]. destruct D as [s' [El' _]].
  apply sessionState_InGame. exact (game_launch_has_mount _ s' El').
Qed.

(* ================================================================== *)
(** ** What an exit leaves alone *)

(** X21.  The exit control never clears what [openEmulator] wrote to the
    loader's globals, and never touches the search input: confirmed or
    declined, the globals, the placeholder and the pending timers are the
    ones before the click.  After a session and a confirmed exit the
    globals still describe that session. *)
Theorem exit_keeps_configuration
  (cl : closure) (confirmed : bool) (rom title : option string) (st : state) :
  let st' := out_state (backBtn_click cl confirmed st) in
  window st' = window st
  /\ placeholder st' = placeholder st
  /\ timers st' = timers st
  /\ (getElementById "game" (document st) = None ->
      window (out_state (backBtn_click cl confirmed
                (out_state (openEmulator (JCard rom title) st))))
      = configured rom title (window st)).
Proof.
  assert (F : forall s,
             window (out_state (backBtn_click cl confirmed s)) = window s
             /\ placeholder (out_state (backBtn_click cl confirmed s))
                = placeholder s
             /\ timers (out_state (backBtn_click cl confirmed s)) = timers s).
  { intros s. destruct confirmed; [|now repeat split].
    rewrite backBtn_click_confirmed. cbn [out_state].
    destruct (exit_state_spec cl s) as [_ [_ [_ [_ [_ [Hw [Hp Ht]]]]]]].
    now repeat split. }
  intros st'. destruct (F st) as [Hw [Hp Ht]].
  repeat split; try assumption.
  intros G. destruct (F (out_state (openEmulator (JCard rom title) st)))
    as [-> _].
  now rewrite (openEmulator_menu _ st G).
Qed.

End Properties.

(* ================================================================== *)
(** * Sample runs

    The statements above at concrete pages, under the sample host. *)

#[local] Existing Instance Sample.ahost.




Lemma openEmulator_guard_no_change_witness :
  sessionState Sample.st_game = InGame
  /\ openEmulator (JCard (Some "/b.gba") (Some "Bar")) Sample.st_game
     = mkOut Sample.st_game [] (Normal tt).
Proof.
  split; [reflexivity|].
  apply (openEmulator_guard_no_change Sample.cl _ Sample.st_game).
  reflexivity.
Defined.

Lemma activation_configures_before_load_witness :
  EJS_gameUrl (window Sample.st_game) = Some "/a.gba"
  /\ EJS_gameName (window Sample.st_game) = Some "Foo".
Proof.
  destruct (activation_configures_before_load Sample.cl Sample.card "click"
              (Sample.inp "" true) Sample.st0 eq_refl (or_introl eq_refl))
    as [_ [_ [_ [_ [Hu [Ht _]]]]]].
  split.
  - apply (Hu "/a.gba" eq_refl). discriminate.
  - apply (Ht "Foo" eq_refl). discriminate.
Defined.

(** C4 as stated fails for an activation through the listeners bound
    again after an exit.  On a page where another card comes before
    [#gameBtn], after one session and a confirmed exit, pressing Enter on
    the restored [#gameBtn] (whose own locator is "/a.gba") starts a
    session configured for the other card. *)
Lemma rebound_key_configures_first_card :
  sessionState Sample3.st_menu = Menu
  /\ option_map (node_attr "id")
       (node_at Sample3.gameBtn_path (document Sample3.st_menu))
     = Some (Some "gameBtn")
  /\ option_map (node_attr "data-rom")
       (node_at Sample3.gameBtn_path (document Sample3.st_menu))
     = Some (Some "/a.gba")
  /\ re_uncaught (step Sample3.cl Sample3.key_on_gameBtn Sample3.st_menu)
     = []
  /\ EJS_gameUrl
       (window
          (re_state (step Sample3.cl Sample3.key_on_gameBtn Sample3.st_menu)))
     = Some "/b.gba"
  /\ EJS_gameName
       (window
          (re_state (step Sample3.cl Sample3.key_on_gameBtn Sample3.st_menu)))
     = Some "Bar"
  /\ EJS_gameUrl
       (window
          (re_state (step Sample3.cl Sample3.key_on_gameBtn Sample3.st_menu)))
     <> Some "/a.gba".
Proof. repeat split; try reflexivity. discriminate. Qed.

(** The round trip on the sample page: the card comes back with its
    markup, and the empty [style] attribute of the logo is dropped. *)
Lemma roundtrip_restores_snapshot_witness :
  (exists k, launch Sample.st_menu = LaunchMenu k
             /\ innerHTML k = innerHTML [Sample.card])
  /\ titleLogo Sample.st_menu = Some (mkInline None).
Proof.
  pose proof (roundtrip_restores_snapshot Sample.pg [] [Sample.enter]) as H.
  vm_compute in H. destruct H as [[k [Hk [Hk' _]]] [Hlogo _]].
  vm_compute. split; [exists k; split; [exact Hk | exact Hk'] | exact Hlogo].
Defined.

(** C1 as stated fails for a logo whose [style] attribute is present and
    empty: after one enter / confirmed-exit cycle on the sample page the
    attribute is gone, so the logo is not attribute-for-attribute what it
    was before entry. *)
Lemma roundtrip_drops_empty_style_attribute :
  sessionState Sample.st0 = Menu
  /\ titleLogo Sample.st0 = Some (mkInline (Some ""))
  /\ sessionState Sample.st_game = InGame
  /\ sessionState Sample.st_menu = Menu
  /\ titleLogo Sample.st_menu = Some (mkInline None)
  /\ titleLogo Sample.st_menu <> titleLogo Sample.st0.
Proof.
  repeat split; try reflexivity. discriminate.
Qed.


Lemma rebound_click_throws_witness :
  re_uncaught
    (run_listeners Sample.cl "click" (Sample.inp "" true)
       [("click", HRebindClick)] Sample.st_menu)
  = [event_has_no_dataset].
Proof.
  exact (proj1 (rebound_click_throws Sample.cl (Sample.inp "" true)
                  Sample.st_menu eq_refl)).
Defined.

(** The other way [openEmulator] can throw: called without a card while
    the document has none, [querySelector] yields [null]. *)
Example openEmulator_without_any_card :
  out_result
    (openEmulator JUndefined
       (init_state (mkPage [] [] [] [] None None "")))
  = Abrupt (TypeError "Cannot read properties of null (reading 'dataset')").
Proof. reflexivity. Qed.

Lemma search_without_gameBtn_throws_witness :
  exists msg,
    searchBtn_click (init_closure (mkPage [] [] [] [] None None "")) "rojo"
      "" (init_state (mkPage [] [] [] [] None None ""))
    = mkOut (init_state (mkPage [] [] [] [] None None "")) []
        (Abrupt (TypeError msg)).
Proof.
  apply (search_without_gameBtn_throws (mkPage [] [] [] [] None None "")).
  reflexivity.
Defined.

Lemma repeated_misses_leave_the_message_witness :
  placeholder
    (flush_timers
       (run Sample.cl
          (map (fun v => LSearch v Sample.card_text)
             ["zelda"; "mario"; "sonic"]) Sample.st0))
  = not_found_text.
Proof.
  apply (repeated_misses_leave_the_message Sample.cl Sample.card
           ["zelda"; "mario"; "sonic"] Sample.card_text Sample.st0);
    try reflexivity; try discriminate.
  repeat constructor.
Defined.

Lemma openEmulator_falls_back_to_first_card_witness :
  openEmulator JUndefined Sample.st_menu
  = openEmulator (JCard (Some "/a.gba") (Some "Foo")) Sample.st_menu.
Proof.
  apply (openEmulator_falls_back_to_first_card
           (Elem "button"
              [("id", "gameBtn"); ("class", "game-card game-card--rom");
               ("data-rom", "/a.gba"); ("data-title", "Foo")]
              [] [("click", HRebindClick); ("keypress", HRebindKey)]
              [Text "Pokemon Rojo Fuego"]) Sample.st_menu).
  vm_compute. reflexivity.
Defined.

Lemma openEmulator_without_card_throws_witness :
  out_result
    (openEmulator JUndefined (init_state (mkPage [] [] [] [] None None "")))
  = Abrupt null_has_no_dataset.
Proof.
  rewrite (openEmulator_without_card_throws
             (init_state (mkPage [] [] [] [] None None "")) eq_refl eq_refl).
  reflexivity.
Defined.

Lemma missing_attributes_use_defaults_witness :
  EJS_gameUrl
    (window (out_state (openEmulator (JCard None (Some "")) Sample.st0)))
  = Some default_romPath
  /\ EJS_gameName
       (window (out_state (openEmulator (JCard None (Some "")) Sample.st0)))
     = Some default_gameTitle.
Proof.
  destruct (missing_attributes_use_defaults None (Some "") Sample.st0 eq_refl)
    as [Hu Ht].
  split; [apply Hu; now left | apply Ht; now right].
Defined.

Lemma controls_display_after_cycle_witness :
  controlsSection
    (out_state
       (backBtn_click Sample.cl true
          (out_state (openEmulator (JCard None None)
             (set_controlsSection
                (Some [("display", "flex"); ("gap", "4px")]) Sample.st0)))))
  = Some [("gap", "4px")].
Proof.
  exact (proj1 (proj2
    (controls_display_after_cycle Sample.cl None None
       (set_controlsSection (Some [("display", "flex"); ("gap", "4px")])
          Sample.st0) eq_refl))).
Defined.

Lemma late_load_error_is_invisible_witness :
  let st3 :=
    out_state (openEmulator JUndefined
      (out_state (backBtn_click Sample.cl true
         (out_state (openEmulator (JCard None None) Sample.st0))))) in
  script_onerror 0 st3
  = mkOut st3 [EvConsoleError "Failed to load loader.js from"] (Normal tt).
Proof.
  pose proof (late_load_error_is_invisible Sample.cl None None JUndefined
                Sample.st0 eq_refl) as H.
  vm_compute in H. vm_compute. exact (proj2 H).
Defined.

Lemma cycle_leaves_no_script_witness :
  after Sample.st_game
  = [script_node loader_src 0]
  /\ innerHTML (after Sample.st_menu) = innerHTML (after Sample.st0).
Proof.
  pose proof (cycle_leaves_no_script Sample.cl (Some "/a.gba") (Some "Foo")
                Sample.st0 eq_refl) as H.
  vm_compute in H. destruct H as [H1 [_ [_ H2]]].
  vm_compute. split; [exact H1 | exact (proj2 (H2 eq_refl))].
Defined.

Lemma dark_mode_always_witness :
  body_classes Sample.st_menu = ["dark-mode"].
Proof.
  destruct (dark_mode_always Sample.pg [Sample.enter; Sample.exit_confirmed])
    as [_ [_ [_ H]]].
  apply H. intros [].
Defined.


Lemma session_state_is_launch_content_witness :
  sessionState Sample.st_game = InGame
  /\ sessionState Sample.st_menu = Menu.
Proof.
  pose proof (session_state_is_launch_content Sample.pg [Sample.enter]
                eq_refl) as H1.
  pose proof (session_state_is_launch_content Sample.pg
                [Sample.enter; Sample.exit_confirmed] eq_refl) as H2.
  vm_compute in H1, H2. vm_compute. split; [exact H1 | exact (proj1 H2)].
Defined.

Lemma restored_menu_only_gameBtn_listens_witness :
  option_map node_listeners
    (node_at [1]
       (launch_kids
          (launch (exit_state (init_closure Sample2.pg)
                     (init_state Sample2.pg)))))
  = Some [].
Proof.
  assert (E : node_at [1]
                (launch_kids
                   (launch (exit_state (init_closure Sample2.pg)
                              (init_state Sample2.pg))))
              = Some Sample2.other_card) by (vm_compute; reflexivity).
  rewrite E. cbn [option_map]. apply f_equal.
  apply (restored_menu_only_gameBtn_listens Sample2.pg
           (init_state Sample2.pg) [1] Sample2.other_card E).
  reflexivity.
Defined.

Lemma unbound_exit_is_a_dead_end_witness :
  sessionState
    (run Sample.cl
       [Sample.exit_confirmed; Sample.enter_by_key; LTimer]
       (run Sample.cl [Sample.enter; Sample.exit_confirmed; Sample.enter]
          Sample.st0))
  = InGame.
Proof.
  exact (proj2
    (unbound_exit_is_a_dead_end Sample.pg
       [Sample.enter; Sample.exit_confirmed; Sample.enter]
       [Sample.exit_confirmed; Sample.enter_by_key; LTimer]
       (mkSession 1 [] [] []) eq_refl eq_refl)).
Defined.

Lemma exit_keeps_configuration_witness :
  window (out_state (backBtn_click Sample.cl true
            (out_state (openEmulator (JCard (Some "/a.gba") (Some "Foo"))
                          Sample.st0))))
  = configured (Some "/a.gba") (Some "Foo") (window Sample.st0).
Proof.
  apply (exit_keeps_configuration Sample.cl true (Some "/a.gba") (Some "Foo")
           Sample.st0).
  reflexivity.
Defined.

(** C5 (the code at the failing input).  On the sample page, after one
    session and a confirmed exit, the restored [#gameBtn] carries the two
    listeners bound by [restoreMenuUIState].  A click on it calls
    [openEmulator] with the event: no card is looked up, nothing is
    written to the loader's globals, no script is appended, the session
    container is left without listeners on its controls, and a
    [TypeError] is thrown.  The key listener bound next to it calls
    [openEmulator()] and does start a session for the first card. *)
Theorem rebound_click_does_not_fall_back :
  option_map node_listeners (getElementById "gameBtn" (document Sample.st_menu))
  = Some [("click", HRebindClick); ("keypress", HRebindKey)]
  /\ re_events (step Sample.cl Sample.enter Sample.st_menu) = []
  /\ re_uncaught (step Sample.cl Sample.enter Sample.st_menu)
     = [event_has_no_dataset]
  /\ launch (re_state (step Sample.cl Sample.enter Sample.st_menu))
     = LaunchGame (mkSession 1 [] [] [])
  /\ after (re_state (step Sample.cl Sample.enter Sample.st_menu)) = []
  /\ re_uncaught (step Sample.cl Sample.enter_by_key Sample.st_menu) = []
  /\ window (re_state (step Sample.cl Sample.enter_by_key Sample.st_menu))
     = configured (Some "/a.gba") (Some "Foo") no_globals
  /\ launch (re_state (step Sample.cl Sample.enter_by_key Sample.st_menu))
     = LaunchGame (mkSession 1 [("click", HBack)] [("click", HFull)] []).
Proof. repeat split; reflexivity. Qed.

(** The exit control of the sample page after the failed activation: a
    click on it, confirmed or declined, shows no prompt. *)
Lemma unbound_exit_shows_no_prompt_witness :
  sessionState Sample.st_dead = InGame
  /\ dispatch Sample.cl "click" (Sample.inp "" false)
       (backBtn_path Sample.st_dead) Sample.st_dead
     = mkReaction Sample.st_dead [] []
  /\ dispatch Sample.cl "click" (Sample.inp "" true)
       (backBtn_path Sample.st_dead) Sample.st_dead
     = mkReaction Sample.st_dead [] [].
Proof.
  split; [|split].
  - exact (proj1 (unbound_exit_shows_no_prompt Sample.cl (Sample.inp "" false)
                    Sample.st_dead (mkSession 1 [] [] []) eq_refl eq_refl)).
  - exact (proj2 (proj2
             (unbound_exit_shows_no_prompt Sample.cl (Sample.inp "" false)
                Sample.st_dead (mkSession 1 [] [] []) eq_refl eq_refl))).
  - exact (proj2 (proj2
             (unbound_exit_shows_no_prompt Sample.cl (Sample.inp "" true)
                Sample.st_dead (mkSession 1 [] [] []) eq_refl eq_refl))).
Defined.

(** The loader script of the sample session is in the document before
    the confirmed exit and gone after it. *)
Lemma confirmed_exit_is_best_effort_witness :
  In (script_node loader_src 0) (after Sample.st_game)
  /\ ~ In (script_node loader_src 0)
         (after (out_state (backBtn_click Sample.cl true Sample.st_game))).
Proof.
  split; [vm_compute; now left|].
  pose proof (confirmed_exit_is_best_effort Sample.cl Sample.st_game) as H.
  cbv zeta in H. destruct H as [_ [_ [_ [_ [_ [_ H]]]]]].
  exact (proj2 (H eq_refl) 0).
Defined.
